(** * cov: per-file Go coverage report (rumpl/cov, main.go)

    A shallow embedding of [main.go] and the properties of its coverage
    aggregation, extent extraction, sorting, colouring and exit
    behaviour.

    Conventions.
    - Go's [int] and [int64] values are integers [Z]; [int64] additions
      wrap around (two's complement), written out with [Int64.wrap].
    - [float64] values are IEEE-754 binary64 numbers, taken from the
      executable specification [SpecFloat] (precision 53, emax 1024).
    - Calls that leave the program (profile reader, [go list], the Go
      parser, [sort.Slice]) are parameters of the [Run] section. *)

From stdpp Require Import gmap strings list sorting.
From Stdlib Require Import ZArith Lia Bool SpecFloat Permutation.

Local Open Scope Z_scope.

(** ** 64-bit signed integers *)

Module Int64.

Definition modulus : Z := 2 ^ 64.
Definition half_modulus : Z := 2 ^ 63.
Definition min_int : Z := - half_modulus.
Definition max_int : Z := half_modulus - 1.

(** Two's complement reduction of an unbounded integer. *)
Definition wrap (z : Z) : Z := (z + half_modulus) mod modulus - half_modulus.

(** Go's [+] on [int64]. *)
Definition add (a b : Z) : Z := wrap (a + b).

Definition in_range (z : Z) : Prop := min_int <= z <= max_int.

(** Sum of a list in [int64] arithmetic, left to right from zero. *)
Definition sum (l : list Z) : Z := fold_left add l 0.

End Int64.

(** ** Coverage profiles (golang.org/x/tools/cover) *)

(** [cover.ProfileBlock]: one statement block of a profile. *)
Record ProfileBlock : Type := mkBlock {
  StartLine : Z;
  StartCol : Z;
  EndLine : Z;
  EndCol : Z;
  NumStmt : Z;
  Count : Z
}.

(** [cover.Profile]: the blocks recorded for one source file. *)
Record Profile : Type := mkProfile {
  FileName : string;
  Blocks : list ProfileBlock
}.

(** ** Function extents *)

Record FuncExtent : Type := mkExtent {
  name : string;
  startLine : Z;
  startCol : Z;
  endLine : Z;
  endCol : Z
}.

(** The first test of the loop body of [FuncExtent.coverage]: the block
    starts past the end of the function. *)
Definition past_end (f : FuncExtent) (b : ProfileBlock) : bool :=
  (StartLine b >? endLine f)
  || ((StartLine b =? endLine f) && (StartCol b >=? endCol f)).

(** The second test: the block ends before the beginning of the function. *)
Definition before_start (f : FuncExtent) (b : ProfileBlock) : bool :=
  (EndLine b <? startLine f)
  || ((EndLine b =? startLine f) && (EndCol b <=? startCol f)).

(** The two additions at the end of the loop body. *)
Definition count_block (b : ProfileBlock) (covered total : Z) : Z * Z :=
  let total' := Int64.add total (NumStmt b) in
  let covered' := if Count b >? 0 then Int64.add covered (NumStmt b) else covered in
  (covered', total').

(** The [for _, b := range profile.Blocks] loop, with its [break] and
    [continue], started in the state [(covered, total)]. *)
Fixpoint coverage_loop (f : FuncExtent) (bs : list ProfileBlock)
    (covered total : Z) : Z * Z :=
  match bs with
  | [] => (covered, total)
  | b :: rest =>
      if past_end f b then (covered, total)
      else if before_start f b then coverage_loop f rest covered total
      else let '(covered', total') := count_block b covered total in
           coverage_loop f rest covered' total'
  end.

(** [func (f *FuncExtent) coverage(profile *cover.Profile) (num, den int64)]. *)
Definition coverage (f : FuncExtent) (profile : Profile) : Z * Z :=
  let '(covered, total) := coverage_loop f (Blocks profile) 0 0 in
  (covered, if total =? 0 then 1 else total).

(** ** Positions, order and overlap, as the specification words them *)

(** A source position: line, then column. *)
Definition position : Type := Z * Z.

Definition pos_le (p q : position) : Prop :=
  fst p < fst q \/ (fst p = fst q /\ snd p <= snd q).

Definition pos_lt (p q : position) : Prop :=
  fst p < fst q \/ (fst p = fst q /\ snd p < snd q).

Definition pos_leb (p q : position) : bool :=
  (fst p <? fst q) || ((fst p =? fst q) && (snd p <=? snd q)).

Definition block_start (b : ProfileBlock) : position := (StartLine b, StartCol b).
Definition block_end (b : ProfileBlock) : position := (EndLine b, EndCol b).
Definition extent_start (f : FuncExtent) : position := (startLine f, startCol f).
Definition extent_end (f : FuncExtent) : position := (endLine f, endCol f).

(** A block overlaps an extent when it starts before the extent's end and
    ends after the extent's start. *)
Definition overlaps (f : FuncExtent) (b : ProfileBlock) : bool :=
  negb (pos_leb (extent_end f) (block_start b))
  && negb (pos_leb (block_end b) (extent_start f)).

(** Blocks in ascending order of start position. *)
Fixpoint sorted_by_start (bs : list ProfileBlock) : bool :=
  match bs with
  | b1 :: (b2 :: _) as rest =>
      pos_leb (block_start b1) (block_start b2) && sorted_by_start rest
  | _ => true
  end.

(** Every block ends at or before the start of every later block. *)
Fixpoint non_overlapping (bs : list ProfileBlock) : bool :=
  match bs with
  | [] => true
  | b :: rest =>
      forallb (fun b' => pos_leb (block_end b) (block_start b')) rest
      && non_overlapping rest
  end.

(** The scan the specification compares with: no early exit, every block
    that overlaps the extent is counted. *)
Definition scan_all_loop (f : FuncExtent) (bs : list ProfileBlock)
    (covered total : Z) : Z * Z :=
  fold_left
    (fun acc b => if overlaps f b then count_block b (fst acc) (snd acc) else acc)
    bs (covered, total).

Definition scan_all (f : FuncExtent) (profile : Profile) : Z * Z :=
  let '(covered, total) := scan_all_loop f (Blocks profile) 0 0 in
  (covered, if total =? 0 then 1 else total).

(** Sum of the statement counts of the blocks that overlap an extent. *)
Definition overlapping_stmts (f : FuncExtent) (bs : list ProfileBlock) : Z :=
  fold_right (fun b acc => if overlaps f b then NumStmt b + acc else acc) 0 bs.

(** A block with its end column replaced. *)
Definition with_EndCol (b : ProfileBlock) (c : Z) : ProfileBlock :=
  {| StartLine := StartLine b; StartCol := StartCol b;
     EndLine := EndLine b; EndCol := c;
     NumStmt := NumStmt b; Count := Count b |}.

(** The bounds a coverage pair is expected to satisfy. *)
Definition coverage_bounds (r : Z * Z) : Prop :=
  0 <= fst r <= snd r /\ 1 <= snd r.

(** ** IEEE-754 binary64 ([float64]) *)

Module Float64.

Definition prec : Z := 53.
Definition emax : Z := 1024.

Definition t : Type := spec_float.

(** The conversion [float64(x)] of an [int64]: round to nearest, ties to even. *)
Definition of_int64 (z : Z) : t := binary_normalize prec emax z 0 false.

Definition mul (x y : t) : t := SFmul prec emax x y.
Definition div (x y : t) : t := SFdiv prec emax x y.
Definition add (x y : t) : t := SFadd prec emax x y.

(** Go's [<], [<=], [>] and [>=]; each is false when an operand is NaN. *)
Definition ltb (x y : t) : bool := SFltb x y.
Definition leb (x y : t) : bool := SFleb x y.
Definition gtb (x y : t) : bool := SFltb y x.
Definition geb (x y : t) : bool := SFleb y x.
Definition eqb (x y : t) : bool := SFeqb x y.

Definition is_nan (x : t) : bool :=
  match x with S754_nan => true | _ => false end.

Definition zero : t := S754_zero false.
Definition c30 : t := Eval vm_compute in of_int64 30.
Definition c70 : t := Eval vm_compute in of_int64 70.
Definition c100 : t := Eval vm_compute in of_int64 100.

End Float64.

(** The expression [100.0 * float64(covered) / float64(total)] of [run]. *)
Definition percent_of (covered total : Z) : Float64.t :=
  Float64.div (Float64.mul Float64.c100 (Float64.of_int64 covered))
              (Float64.of_int64 total).

(** ** Colours *)

(** The values of [ansiterm.Color] that [getColor] returns. *)
Inductive Color : Type := Default | Red | Yellow | Green.

Definition getColor (percent : Float64.t) : Color :=
  if Float64.leb percent Float64.c30 then Red
  else if Float64.gtb percent Float64.c30 && Float64.leb percent Float64.c70 then Yellow
  else if Float64.gtb percent Float64.c70 then Green
  else Default.

(** ** Errors *)

Definition error : Type := string.

Inductive Result (A : Type) : Type :=
| Ok (a : A)
| Err (e : error).
Arguments Ok {A} a.
Arguments Err {A} e.

Definition bind {A B : Type} (r : Result A) (k : A -> Result B) : Result B :=
  match r with
  | Ok a => k a
  | Err e => Err e
  end.

Notation "'try' x <- r 'in' k" := (bind r (fun x => k))
  (at level 10, x name, r at level 100, k at level 200).

(** ** Syntax trees (go/ast) and the extent visitor *)

(** Package go/ast belongs to Go's standard library; the tree type below
    keeps of it what the visitor can observe. In go/ast a function
    declaration is an [*ast.FuncDecl], a method is an [*ast.FuncDecl] whose
    receiver list [Recv] is not nil, and a function literal is an
    [*ast.FuncLit]. [pos] and [end_] are the line and column that
    [fset.Position] gives for [n.Pos()] and [n.End()]. *)
Inductive NodeKind : Type :=
| FuncDecl (recv : option string) (fname : string) (pos end_ : position)
| FuncLit
| OtherNode.

(** A node with the children that [ast.Walk] visits, in its order. *)
#[warnings="-register-all"]
Inductive Node : Type :=
| mkNode (kind : NodeKind) (children : list Node).

Definition node_kind (n : Node) : NodeKind :=
  match n with mkNode k _ => k end.

Definition node_children (n : Node) : list Node :=
  match n with mkNode _ cs => cs end.

Record FuncVisitor : Type := mkVisitor {
  v_name : string;
  funcs : list FuncExtent
}.

(** [func (v *FuncVisitor) Visit(node ast.Node) ast.Visitor]: the type
    switch has the single case [*ast.FuncDecl]; the visitor returned is
    always [v] itself, here the updated state. [None] is the [nil] node
    that [ast.Walk] passes after the children. *)
Definition Visit (v : FuncVisitor) (node : option Node) : FuncVisitor :=
  match node with
  | Some (mkNode (FuncDecl _ fname start end_) _) =>
      let fe := {| name := fname;
                   startLine := fst start; startCol := snd start;
                   endLine := fst end_; endCol := snd end_ |} in
      {| v_name := v_name v; funcs := funcs v ++ [fe] |}
  | _ => v
  end.

(** [ast.Walk(v, node)]: visit the node, then (the visitor returned is
    never nil) walk the children in order, then visit [nil]. *)
Fixpoint Walk (v : FuncVisitor) (node : Node) : FuncVisitor :=
  match node with
  | mkNode k children =>
      let v1 := Visit v (Some (mkNode k children)) in
      let v2 := fold_left Walk children v1 in
      Visit v2 None
  end.

(** The nodes of a tree in the order [ast.Walk] reaches them. *)
Fixpoint preorder (node : Node) : list Node :=
  match node with
  | mkNode k children => mkNode k children :: flat_map preorder children
  end.

(** The extent recorded for a function declaration node. *)
Definition decl_extent (n : Node) : option FuncExtent :=
  match node_kind n with
  | FuncDecl _ fname start end_ =>
      Some {| name := fname;
              startLine := fst start; startCol := snd start;
              endLine := fst end_; endCol := snd end_ |}
  | _ => None
  end.

(** A top-level function declaration that is not a method. *)
Definition plain_function (n : Node) : bool :=
  match node_kind n with
  | FuncDecl None _ _ _ => true
  | _ => false
  end.

Definition is_FuncDecl (n : Node) : bool :=
  match node_kind n with
  | FuncDecl _ _ _ _ => true
  | _ => false
  end.

(** Files as the Go parser builds them: function declarations occur only
    among the children of the file node, never below them. *)
Definition go_shaped (file : Node) : Prop :=
  is_FuncDecl file = false
  /\ Forall (fun d => Forall (fun n => is_FuncDecl n = false)
                             (flat_map preorder (node_children d)))
            (node_children file).

(** Induction on trees, with the property available for all children. *)
Fixpoint Node_forall_ind (P : Node -> Prop)
    (step : forall k children, Forall P children -> P (mkNode k children))
    (n : Node) : P n :=
  match n with
  | mkNode k children =>
      step k children
        ((fix all (cs : list Node) : Forall P cs :=
            match cs with
            | [] => @List.Forall_nil Node P
            | c :: cs' => @List.Forall_cons Node P c cs' (Node_forall_ind P step c) (all cs')
            end) children)
  end.

(** ** Sorting (package sort)

    [sort.Slice] belongs to Go's standard library, not to this program.
    What is modelled here is the path it takes for short slices, from
    [zsortfunc.go]: [Slice] calls [pdqsort_func(data, 0, length, limit)],
    which for [length <= maxInsertion] runs [insertionSort_func] and
    returns. The slice is a list, updated in place by index. For slices of
    any length the library is taken with its contract,
    [sort_Slice_contract] below. *)

Section InsertionSort.
Context {A : Type}.

(** [data.Swap(i, j)] on the slice being sorted; the indices the sort
    passes are always within the slice. *)
Definition swap (data : list A) (i j : nat) : list A :=
  match data !! i, data !! j with
  | Some x, Some y => <[i := y]> (<[j := x]> data)
  | _, _ => data
  end.

(** The inner loop of [insertionSort_func]:
    [for j := i; j > a && data.Less(j, j-1); j-- { data.Swap(j, j-1) }].
    [less] reads the slice in its current state. *)
Fixpoint insertion_inner (less : list A -> nat -> nat -> bool) (a j : nat)
    (data : list A) : list A :=
  match j with
  | O => data
  | S j' =>
      if Nat.ltb a j && less data j j'
      then insertion_inner less a j' (swap data j j')
      else data
  end.

(** [insertionSort_func(data, a, b)]: [for i := a + 1; i < b; i++]. *)
Definition insertionSort_func (less : list A -> nat -> nat -> bool)
    (data : list A) (a b : nat) : list A :=
  fold_left (fun d i => insertion_inner less a i d)
            (seq (a + 1) (b - (a + 1))) data.


(** What [sort.Slice(data, less)] does to a short slice:
    [insertionSort_func(data, 0, length)]. *)
Definition sort_Slice_small (data : list A)
    (less : list A -> nat -> nat -> bool) : list A :=
  insertionSort_func less data 0 (length data).

(** A [less] closure that compares the elements at the two indices. *)
Definition less_of (cmp : A -> A -> bool) (data : list A) (i j : nat) : bool :=
  match data !! i, data !! j with
  | Some x, Some y => cmp x y
  | _, _ => false
  end.

(** Insertion seen on the reversed prefix: [x] moves past its neighbours
    [y] as long as [cmp x y] holds. *)
Fixpoint insert_left (cmp : A -> A -> bool) (x : A) (rpre : list A) : list A :=
  match rpre with
  | [] => [x]
  | y :: rest => if cmp x y then y :: insert_left cmp x rest else x :: y :: rest
  end.

Definition isort_rev (cmp : A -> A -> bool) (l acc : list A) : list A :=
  fold_left (fun acc x => insert_left cmp x acc) l acc.

End InsertionSort.

(** ** The report *)

Record coveredFile : Type := mkCoveredFile {
  filename : string;
  percent : Float64.t
}.

(** The closure passed to [sort.Slice] in [run]; it indexes [coverfiles],
    the slice being sorted. *)
Definition less_percent (reverse : bool) (coverfiles : list coveredFile)
    (i j : nat) : bool :=
  match coverfiles !! i, coverfiles !! j with
  | Some x, Some y =>
      if reverse then Float64.geb (percent x) (percent y)
      else Float64.ltb (percent x) (percent y)
  | _, _ => false
  end.

(** The comparison made by [less_percent] on two rows. *)
Definition cmp_percent (reverse : bool) (x y : coveredFile) : bool :=
  if reverse then Float64.geb (percent x) (percent y)
  else Float64.ltb (percent x) (percent y).

(** Rows whose percentage equals [p]. *)
Definition tie (p : Float64.t) (c : coveredFile) : bool :=
  Float64.eqb (percent c) p.

Definition ascending (l : list coveredFile) : Prop :=
  StronglySorted (fun x y => Float64.leb (percent x) (percent y) = true) l.

Definition descending (l : list coveredFile) : Prop :=
  StronglySorted (fun x y => Float64.geb (percent x) (percent y) = true) l.

(** What is written to standard output, one constructor per [Fprintf] or
    [Printf]; a row carries the foreground colour set before it. *)
Inductive Line : Type :=
| FileRow (color : Color) (file : string) (pct : Float64.t)
| Separator
| TotalRow (color : Color) (pct : Float64.t)
| ErrorLine (msg : error).

Definition is_report_line (l : Line) : bool :=
  match l with
  | ErrorLine _ => false
  | _ => true
  end.

(** [Pkg], decoded from the output of [go list -e -json]. *)
Record Pkg : Type := mkPkg {
  ImportPath : string;
  Dir : string;
  Error : option string
}.

(** The inner loop of [run] over the function extents of one file. The
    state is [(fileTotal, fileCovered, total, covered)]. *)
Definition extent_step (profile : Profile) (st : Z * Z * Z * Z)
    (f : FuncExtent) : Z * Z * Z * Z :=
  let '(fileTotal, fileCovered, total, covered) := st in
  let '(n, d) := coverage f profile in
  (Int64.add fileTotal d, Int64.add fileCovered n,
   Int64.add total d, Int64.add covered n).

Definition extent_loop (profile : Profile) (fe : list FuncExtent)
    (total covered : Z) : Z * Z * Z * Z :=
  fold_left (extent_step profile) fe (0, 0, total, covered).

(** The statement counts [(fileCovered, fileTotal)] of one file. *)
Definition file_counts (profile : Profile) (fe : list FuncExtent) : Z * Z :=
  let '(fileTotal, fileCovered, _, _) := extent_loop profile fe 0 0 in
  (fileCovered, fileTotal).

Section Run.

(** [cover.ParseProfiles]. *)
Variable ParseProfiles : string -> Result (list Profile).
(** Running [go list -e -json] on the packages: the error of [cmd.Output]
    with the captured standard error, or the results of the successive
    [dec.Decode] calls up to end of file. *)
Variable go_list : list string -> Result (list (Result Pkg)).
(** [parser.ParseFile] with the positions resolved by the file set. *)
Variable ParseFile : string -> Result Node.
Variable path_Dir : string -> string.
Variable path_Base : string -> string.
Variable filepath_Join : string -> string -> string.
Variable filepath_IsAbs : string -> bool.
(** [sort.Slice] on the rows of the report. *)
Variable sort_Slice :
  list coveredFile -> (list coveredFile -> nat -> nat -> bool) -> list coveredFile.

(** [strings.HasPrefix(file, ".") || filepath.IsAbs(file)]. *)
Definition relative_or_absolute (file : string) : bool :=
  String.prefix "." file || filepath_IsAbs file.

(** The first loop of [findPkgs]. *)
Fixpoint collect_pkgs (profiles : list Profile)
    (pkgs : gmap string (option Pkg)) (list' : list string)
    : gmap string (option Pkg) * list string :=
  match profiles with
  | [] => (pkgs, list')
  | profile :: rest =>
      if relative_or_absolute (FileName profile) then collect_pkgs rest pkgs list'
      else
        let pkg := path_Dir (FileName profile) in
        match pkgs !! pkg with
        | Some _ => collect_pkgs rest pkgs list'
        | None => collect_pkgs rest (<[pkg := None]> pkgs) (list' ++ [pkg])
        end
  end.

(** The decoding loop of [findPkgs]. *)
Fixpoint decode_pkgs (stream : list (Result Pkg))
    (pkgs : gmap string (option Pkg)) : Result (gmap string (option Pkg)) :=
  match stream with
  | [] => Ok pkgs
  | Err e :: _ => Err ("decoding go list json: " ++ e)%string
  | Ok pkg :: rest => decode_pkgs rest (<[ImportPath pkg := Some pkg]> pkgs)
  end.

Definition findPkgs (profiles : list Profile) : Result (gmap string (option Pkg)) :=
  let '(pkgs, list') := collect_pkgs profiles ∅ [] in
  match list' with
  | [] => Ok pkgs
  | _ =>
      match go_list list' with
      | Err e => Err ("cannot run go list: " ++ e)%string
      | Ok stream => decode_pkgs stream pkgs
      end
  end.

Definition not_found (file : string) : error :=
  ("did not find package for " ++ file ++ " in go list output")%string.

Definition findFile (pkgs : gmap string (option Pkg)) (file : string) : Result string :=
  if relative_or_absolute file then Ok file
  else
    match pkgs !! path_Dir file with
    | Some (Some pkg) =>
        if negb (String.eqb (Dir pkg) "")
        then Ok (filepath_Join (Dir pkg) (path_Base file))
        else match Error pkg with
             | Some err => Err err
             | None => Err (not_found file)
             end
    | _ => Err (not_found file)
    end.

(** [func test(file string) ([]*FuncExtent, error)]. *)
Definition test (file : string) : Result (list FuncExtent) :=
  try parsedFile <- ParseFile file in
  let visitor := {| v_name := file; funcs := [] |} in
  Ok (funcs (Walk visitor parsedFile)).

(** The loop of [run] over the profiles, in the state
    [(total, covered, coverfiles)]; an error returns at once. *)
Fixpoint profile_loop (dirs : gmap string (option Pkg)) (profiles : list Profile)
    (total covered : Z) (coverfiles : list coveredFile)
    : Result (Z * Z * list coveredFile) :=
  match profiles with
  | [] => Ok (total, covered, coverfiles)
  | profile :: rest =>
      try f <- findFile dirs (FileName profile) in
      try fe <- test f in
      let '(fileTotal, fileCovered, total', covered') :=
        extent_loop profile fe total covered in
      profile_loop dirs rest total' covered'
        (coverfiles ++ [{| filename := f; percent := percent_of fileCovered fileTotal |}])
  end.

(** The lines [run] writes once the loop is over. *)
Definition render (coverfiles : list coveredFile) (covered total : Z) : list Line :=
  let totalPercent := percent_of covered total in
  map (fun c => FileRow (getColor (percent c)) (filename c) (percent c)) coverfiles
  ++ [Separator; TotalRow (getColor totalPercent) totalPercent].

(** The part of [run] before the sort: [(total, covered, coverfiles)], or
    the first error. *)
Definition aggregate (file : string) : Result (Z * Z * list coveredFile) :=
  try profiles <- ParseProfiles file in
  try dirs <- findPkgs profiles in
  profile_loop dirs profiles 0 0 [].

(** [func run(file string, reverse bool) error]: the lines flushed to
    standard output when it returns, and the error returned. *)
Definition run (file : string) (reverse : bool) : list Line * option error :=
  match aggregate file with
  | Err e => ([], Some e)
  | Ok (total, covered, coverfiles) =>
      let sorted := sort_Slice coverfiles (less_percent reverse) in
      (render sorted covered total, None)
  end.

(** The [Action] of the command line application, given the [reverse]
    flag and the first argument. *)
Definition Action (reverse : bool) (file : string) : list Line * option error :=
  if String.eqb file "" then ([], Some "please provide a coverage file"%string)
  else run file reverse.

(** What the process leaves behind. *)
Record Outcome : Type := mkOutcome {
  stdout : list Line;
  exit_status : Z
}.

(** [func main()]: [app.Run] calls [Action]; an error is printed; then
    [main] returns, and a Go program whose [main] returns exits with
    status 0. Nothing in the program calls [os.Exit]. *)
Definition main (reverse : bool) (file : string) : Outcome :=
  let '(out, err) := Action reverse file in
  match err with
  | Some e => {| stdout := out ++ [ErrorLine e]; exit_status := 0 |}
  | None => {| stdout := out; exit_status := 0 |}
  end.

(** What one iteration of the loop of [run] works out for a profile: the
    resolved file name and the statement counts. *)
Definition file_result (dirs : gmap string (option Pkg)) (profile : Profile)
    : Result (string * (Z * Z)) :=
  try f <- findFile dirs (FileName profile) in
  try fe <- test f in
  Ok (f, file_counts profile fe).

End Run.

(** Sum of integers, without wrap-around. *)
Definition Zsum (l : list Z) : Z := fold_right Z.add 0 l.

(** The arithmetic mean of the percentages of the rows. *)
Definition mean_percent (rows : list coveredFile) : Float64.t :=
  Float64.div (fold_left Float64.add (map percent rows) Float64.zero)
              (Float64.of_int64 (Z.of_nat (length rows))).

(** ** A sample run

    Three files. [a.go] and [b.go] each hold a function [A], whose block
    of 3 statements was hit, and a function [B], whose block of 2
    statements was not; [c.go] holds one function, fully covered. *)

Definition two_functions : Node :=
  mkNode OtherNode
    [ mkNode OtherNode [];
      mkNode (FuncDecl None "A" (3, 1) (5, 2)) [mkNode OtherNode []];
      mkNode (FuncDecl None "B" (7, 1) (9, 2)) [mkNode OtherNode []] ]%string.

Definition one_function : Node :=
  mkNode OtherNode
    [ mkNode OtherNode [];
      mkNode (FuncDecl None "C" (3, 1) (5, 2)) [mkNode OtherNode []] ]%string.

(** [var handler = func() { ... }]: statements, but no function declaration. *)
Definition no_function : Node :=
  mkNode OtherNode
    [ mkNode OtherNode [];
      mkNode OtherNode [mkNode FuncLit [mkNode OtherNode []]] ]%string.

Definition two_blocks : list ProfileBlock :=
  [ mkBlock 3 14 5 2 3 5; mkBlock 7 14 9 2 2 0 ].

Definition sample_profiles : list Profile :=
  [ mkProfile "./a.go" two_blocks;
    mkProfile "./b.go" two_blocks;
    mkProfile "./c.go" [mkBlock 3 14 5 2 1 1] ]%string.

Definition sample_ParseProfiles (file : string) : Result (list Profile) :=
  if String.eqb file "cover.out" then Ok sample_profiles
  else if String.eqb file "lit.out"
       then Ok [mkProfile "./lit.go" [mkBlock 3 22 5 2 2 1]]%string
  else if String.eqb file "empty.out"
       then Ok [mkProfile "./empty.go" []]%string
  else Err ("open " ++ file ++ ": no such file or directory")%string.

Definition sample_ParseFile (path : string) : Result Node :=
  if String.eqb path "./a.go" then Ok two_functions
  else if String.eqb path "./b.go" then Ok two_functions
  else if String.eqb path "./c.go" then Ok one_function
  else if String.eqb path "./empty.go" then Ok two_functions
  else if String.eqb path "./lit.go" then Ok no_function
  else Err (path ++ ":1:1: expected 'package', found 'EOF'")%string.

Definition sample_go_list (pkgs : list string) : Result (list (Result Pkg)) :=
  Err "exit status 1"%string.

Definition sample_aggregate : string -> Result (Z * Z * list coveredFile) :=
  aggregate sample_ParseProfiles sample_go_list sample_ParseFile
    (fun s => s) (fun s => s) (fun d f => f) (fun _ => false).

Definition sample_run : string -> bool -> list Line * option error :=
  run sample_ParseProfiles sample_go_list sample_ParseFile
    (fun s => s) (fun s => s) (fun d f => f) (fun _ => false)
    sort_Slice_small.

Definition sample_main : bool -> string -> Outcome :=
  main sample_ParseProfiles sample_go_list sample_ParseFile
    (fun s => s) (fun s => s) (fun d f => f) (fun _ => false)
    sort_Slice_small.

(** ** Definitions used to state the properties *)

Definition sample_extent : FuncExtent :=
  {| name := "A"; startLine := 3; startCol := 1; endLine := 7; endCol := 2 |}.

Definition sample_profile : Profile :=
  {| FileName := "./a.go";
     Blocks := [ mkBlock 1 1 2 5 4 1; mkBlock 3 14 5 3 3 5;
                 mkBlock 5 3 7 2 2 0; mkBlock 9 14 11 2 6 1;
                 mkBlock 11 2 12 2 1 1 ] |}.

Definition boundary_sample : ProfileBlock := mkBlock 1 1 3 1 4 2.

(** Two hit blocks of 2^62 statements each inside one function. *)
Definition huge_profile : Profile :=
  {| FileName := "./a.go";
     Blocks := [ mkBlock 3 14 4 2 (2 ^ 62) 1; mkBlock 4 2 5 2 (2 ^ 62) 1 ] |}.

(** A row of the report carries the colour [getColor] gives its percentage. *)
Definition line_color_ok (l : Line) : Prop :=
  match l with
  | FileRow c _ p => c = getColor p
  | TotalRow c p => c = getColor p
  | _ => True
  end.

(** A file with a method, and a function whose body holds a function
    literal:
    [func (t T) M() {}]
    [func F() { g := func() {}; g() }] *)
Definition method_file : Node :=
  mkNode OtherNode
    [ mkNode OtherNode [];
      mkNode (FuncDecl (Some "T") "M" (3, 1) (3, 19)) [mkNode OtherNode []];
      mkNode (FuncDecl None "F" (5, 1) (8, 2))
        [mkNode OtherNode [mkNode FuncLit [mkNode OtherNode []]]] ]%string.

(** The place of a number that is not NaN on a line of integer triples,
    ordered lexicographically. *)
Definition float_key (x : Float64.t) : Z * Z * Z :=
  match x with
  | S754_nan => (0, 0, 0)
  | S754_zero _ => (0, 0, 0)
  | S754_infinity true => (-2, 0, 0)
  | S754_infinity false => (2, 0, 0)
  | S754_finite true m e => (-1, - e, Zneg m)
  | S754_finite false m e => (1, e, Zpos m)
  end.

Definition key_lt (a b : Z * Z * Z) : Prop :=
  a.1.1 < b.1.1
  \/ (a.1.1 = b.1.1 /\ (a.1.2 < b.1.2 \/ (a.1.2 = b.1.2 /\ a.2 < b.2))).

Definition key_eq (a b : Z * Z * Z) : Prop :=
  a.1.1 = b.1.1 /\ a.1.2 = b.1.2 /\ a.2 = b.2.


(** A row whose percentage is a number. *)
Definition not_nan (c : coveredFile) : Prop := Float64.is_nan (percent c) = false.

(** The row a file contributes to the report. *)
Definition row_of (r : string * (Z * Z)) : coveredFile :=
  {| filename := r.1; percent := percent_of r.2.1 r.2.2 |}.

(** The rows of the sample run, in the order of the profiles, and the row
    of a file without function declarations. *)
Definition row_a : coveredFile := {| filename := "./a.go"; percent := percent_of 3 5 |}.
Definition row_b : coveredFile := {| filename := "./b.go"; percent := percent_of 3 5 |}.
Definition row_c : coveredFile := {| filename := "./c.go"; percent := percent_of 1 1 |}.


(** ** Definitions used to state further properties *)

(** Sum of the statement counts of the blocks that overlap an extent and
    were hit at least once. *)
Definition hit_stmts (f : FuncExtent) (bs : list ProfileBlock) : Z :=
  fold_right
    (fun b acc => if overlaps f b && (Count b >? 0) then NumStmt b + acc else acc)
    0 bs.

(** The record that the decoding loop of [findPkgs] leaves in the map for
    the import path [k]: the last one decoded with this path. *)
Fixpoint listed (k : string) (stream : list (Result Pkg)) : option Pkg :=
  match stream with
  | [] => None
  | r :: rest =>
      match listed k rest with
      | Some pkg => Some pkg
      | None =>
          match r with
          | Ok pkg => if String.eqb (ImportPath pkg) k then Some pkg else None
          | Err _ => None
          end
      end
  end.

Definition is_Ok {A : Type} (r : Result A) : bool :=
  match r with
  | Ok _ => true
  | Err _ => false
  end.

(** A run on a package path: [go list] answers with one record. *)
Definition pkg_p : Pkg :=
  {| ImportPath := "example.com/p"; Dir := "/src/p"; Error := None |}.

Definition pkg_profiles : list Profile :=
  [mkProfile "example.com/p/a.go" two_blocks; mkProfile "example.com/p/b.go" []].

Definition pkg_Dir (file : string) : string := "example.com/p".

Definition pkg_Base (file : string) : string :=
  if String.eqb file "example.com/p/a.go" then "a.go" else "b.go".

Definition pkg_Join (dir file : string) : string := (dir ++ "/" ++ file)%string.

Definition pkg_go_list (pkgs : list string) : Result (list (Result Pkg)) :=
  Ok [Ok pkg_p].

(** A run in which the second of three files does not parse, and a run on
    a profile without any file. *)
Definition broken_ParseProfiles (file : string) : Result (list Profile) :=
  Ok ([mkProfile "./a.go" two_blocks]
      ++ mkProfile "./missing.go" [] :: [mkProfile "./c.go" [mkBlock 3 14 5 2 1 1]]).

Definition no_ParseProfiles (file : string) : Result (list Profile) := Ok [].

(** A number other than zero: finite and not zero, or infinite. *)
Definition nonzero_number (x : Float64.t) : Prop :=
  match x with
  | S754_finite _ _ _ => True
  | S754_infinity _ => True
  | _ => False
  end.

(** The colours from worst to best. *)
Definition color_rank (c : Color) : Z :=
  match c with
  | Red => 0
  | Yellow => 1
  | Green => 2
  | Default => 3
  end.

(** The value of a result, with a value for the error case. *)
Definition from_Ok {A : Type} (default : A) (r : Result A) : A :=
  match r with
  | Ok a => a
  | Err _ => default
  end.

(** ** Definitions used to state the order and the total of the report *)




(** The statements covered in all files and the statements of all files,
    as exact sums over the results of the files. *)
Definition sum_covered (rows : list (string * (Z * Z))) : Z :=
  Zsum (map (fun r => r.2.1) rows).

Definition sum_total (rows : list (string * (Z * Z))) : Z :=
  Zsum (map (fun r => r.2.2) rows).

(** The number 100 in binary64: 7036874417766400 * 2^-46. *)
Definition hundred : spec_float := S754_finite false 7036874417766400 (-46).

(** The total as the specification words it, 100 times the covered
    statements divided by the total statements, each operation rounded to
    binary64. *)
Definition weighted_percent (covered total : Z) : spec_float :=
  SFdiv 53 1024
    (SFmul 53 1024 hundred (binary_normalize 53 1024 covered 0 false))
    (binary_normalize 53 1024 total 0 false).

(** A run on two files of one function each: in [c.go] a block of 2^62
    statements that was hit, in [d.go] a block of 2^62 statements that was
    not. *)
Definition wrap_profiles : list Profile :=
  [ mkProfile "./c.go" [mkBlock 3 14 5 2 (2 ^ 62) 1];
    mkProfile "./d.go" [mkBlock 3 14 5 2 (2 ^ 62) 0] ]%string.

Definition wrap_file_result : Profile -> Result (string * (Z * Z)) :=
  file_result (fun _ => Ok one_function)
    (fun s => s) (fun s => s) (fun d f => f) (fun _ => false) ∅.

Definition wrap_run : string -> bool -> list Line * option error :=
  run (fun _ => Ok wrap_profiles) sample_go_list (fun _ => Ok one_function)
    (fun s => s) (fun s => s) (fun d f => f) (fun _ => false)
    sort_Slice_small.

(** * Properties *)

(** ** [int64] arithmetic *)

Lemma wrap_in_range z : Int64.in_range (Int64.wrap z).
Proof.
  unfold Int64.in_range, Int64.wrap, Int64.min_int, Int64.max_int,
    Int64.modulus, Int64.half_modulus.
  pose proof (Z.mod_pos_bound (z + 2 ^ 63) (2 ^ 64) ltac:(lia)). lia.
Qed.

Lemma wrap_small z : Int64.in_range z -> Int64.wrap z = z.
Proof.
  unfold Int64.in_range, Int64.wrap, Int64.min_int, Int64.max_int,
    Int64.modulus, Int64.half_modulus. intros H.
  rewrite Z.mod_small by lia. lia.
Qed.

Lemma wrap_add_l a b : Int64.wrap (Int64.wrap a + b) = Int64.wrap (a + b).
Proof.
  unfold Int64.wrap, Int64.modulus, Int64.half_modulus.
  replace ((a + 2 ^ 63) mod 2 ^ 64 - 2 ^ 63 + b + 2 ^ 63)
    with ((a + 2 ^ 63) mod 2 ^ 64 + b) by lia.
  rewrite Zplus_mod_idemp_l. f_equal. f_equal. lia.
Qed.

Lemma wrap_add_r a b : Int64.wrap (a + Int64.wrap b) = Int64.wrap (a + b).
Proof. rewrite (Z.add_comm a), wrap_add_l. f_equal. lia. Qed.

Lemma add64_small a b : Int64.in_range (a + b) -> Int64.add a b = a + b.
Proof. apply wrap_small. Qed.

Lemma in_range_bounds z : Int64.in_range z <-> - 2 ^ 63 <= z <= 2 ^ 63 - 1.
Proof. reflexivity. Qed.

(** ** Positions *)

Lemma pos_leb_le p q : pos_leb p q = true <-> pos_le p q.
Proof. unfold pos_leb, pos_le. lia. Qed.

Lemma pos_le_trans p q r : pos_le p q -> pos_le q r -> pos_le p r.
Proof. unfold pos_le. lia. Qed.

Lemma pos_leb_trans p q r :
  pos_leb p q = true -> pos_leb q r = true -> pos_leb p r = true.
Proof. rewrite !pos_leb_le. apply pos_le_trans. Qed.

(** The two tests of the loop are position comparisons. *)
Lemma past_end_pos f b :
  past_end f b = pos_leb (extent_end f) (block_start b).
Proof.
  unfold past_end, pos_leb, extent_end, block_start. simpl.
  rewrite Z.gtb_ltb, Z.geb_leb, (Z.eqb_sym (StartLine b)). reflexivity.
Qed.

Lemma before_start_pos f b :
  before_start f b = pos_leb (block_end b) (extent_start f).
Proof. reflexivity. Qed.

Lemma overlaps_tests f b :
  overlaps f b = negb (past_end f b) && negb (before_start f b).
Proof. unfold overlaps. now rewrite past_end_pos, before_start_pos. Qed.

(** ** The coverage scan *)

Lemma sorted_by_start_tail b bs :
  sorted_by_start (b :: bs) = true -> sorted_by_start bs = true.
Proof. destruct bs as [|b2 bs]; simpl; [easy|]. now intros [_ H]%andb_prop. Qed.

(** In a sorted profile, once a block is past the end, all later ones are. *)
Lemma past_end_rest f b bs :
  sorted_by_start (b :: bs) = true ->
  past_end f b = true ->
  Forall (fun b' => past_end f b' = true) bs.
Proof.
  revert b. induction bs as [|b2 bs IH]; intros b Hs Hp; constructor.
  - simpl in Hs. apply andb_prop in Hs as [Hle _].
    rewrite past_end_pos in *. eapply pos_leb_trans; eassumption.
  - apply (IH b2).
    + eapply sorted_by_start_tail, Hs.
    + simpl in Hs. apply andb_prop in Hs as [Hle _].
      rewrite past_end_pos in *. eapply pos_leb_trans; eassumption.
Qed.

Lemma scan_all_loop_none f bs covered total :
  Forall (fun b => overlaps f b = false) bs ->
  scan_all_loop f bs covered total = (covered, total).
Proof.
  unfold scan_all_loop. induction 1 as [|b bs Hb _ IH]; simpl; [easy|].
  now rewrite Hb.
Qed.

Lemma coverage_loop_none f bs covered total :
  Forall (fun b => overlaps f b = false) bs ->
  coverage_loop f bs covered total = (covered, total).
Proof.
  induction 1 as [|b bs Hb _ IH]; simpl; [easy|].
  rewrite overlaps_tests in Hb.
  destruct (past_end f b); [easy|]. destruct (before_start f b); [easy|].
  discriminate.
Qed.

Lemma coverage_loop_scan_all f bs covered total :
  sorted_by_start bs = true ->
  coverage_loop f bs covered total = scan_all_loop f bs covered total.
Proof.
  revert covered total. induction bs as [|b bs IH]; intros covered total Hs; [easy|].
  simpl. destruct (past_end f b) eqn:Hp.
  - symmetry. apply (scan_all_loop_none f (b :: bs)).
    constructor.
    + rewrite overlaps_tests, Hp. reflexivity.
    + eapply Forall_impl; [apply (past_end_rest f b bs Hs Hp)|].
      simpl. intros b' Hb'. rewrite overlaps_tests, Hb'. reflexivity.
  - unfold scan_all_loop. simpl. rewrite overlaps_tests, Hp. simpl.
    apply sorted_by_start_tail in Hs.
    destruct (before_start f b); simpl.
    + apply IH, Hs.
    + unfold count_block. rewrite IH by exact Hs. reflexivity.
Qed.

(** C1. On a profile whose blocks are in ascending order of start position
    and do not overlap one another, the scan of [coverage], which stops at
    the first block that starts at or after the end of the extent, returns
    the same pair (covered, total) as a scan of all the blocks that counts
    every block overlapping the extent. *)
Theorem coverage_early_exit_equiv (f : FuncExtent) (profile : Profile) :
  sorted_by_start (Blocks profile) = true ->
  non_overlapping (Blocks profile) = true ->
  coverage f profile = scan_all f profile.
Proof.
  intros Hs _. unfold coverage, scan_all.
  now rewrite coverage_loop_scan_all.
Qed.

Lemma coverage_early_exit_equiv_witness :
  sorted_by_start (Blocks sample_profile) = true
  /\ non_overlapping (Blocks sample_profile) = true
  /\ coverage sample_extent sample_profile = scan_all sample_extent sample_profile.
Proof.
  split; [reflexivity|]. split; [reflexivity|].
  apply (coverage_early_exit_equiv sample_extent sample_profile); reflexivity.
Defined.

Example coverage_sample : coverage sample_extent sample_profile = (3, 5).
Proof. reflexivity. Qed.

(** C2. A block that ends exactly where the extent starts (same line,
    same column) adds nothing to the state of the scan: it is skipped, or
    it stops the scan. The same block ending one column further, and not
    starting at or past the end of the extent, has its statement count
    added to [total] (and to [covered] when it was hit). *)
Theorem boundary_block_excluded_included
    (f : FuncExtent) (b : ProfileBlock) (rest : list ProfileBlock)
    (covered total : Z) :
  EndLine b = startLine f ->
  let b0 := with_EndCol b (startCol f) in
  let b1 := with_EndCol b (startCol f + 1) in
  coverage_loop f (b0 :: rest) covered total
    = (if past_end f b0 then (covered, total)
       else coverage_loop f rest covered total)
  /\ (past_end f b1 = false ->
      coverage_loop f (b1 :: rest) covered total
        = coverage_loop f rest
            (if Count b >? 0 then Int64.add covered (NumStmt b) else covered)
            (Int64.add total (NumStmt b))).
Proof.
  intros Hline b0 b1. split.
  - simpl. destruct (past_end f b0); [reflexivity|].
    replace (before_start f b0) with true; [reflexivity|].
    unfold before_start, b0. simpl. lia.
  - intros Hp. simpl. rewrite Hp.
    replace (before_start f b1) with false; [reflexivity|].
    unfold before_start, b1. simpl. lia.
Qed.

Lemma boundary_block_excluded_included_witness :
  EndLine boundary_sample = startLine sample_extent
  /\ coverage_loop sample_extent [with_EndCol boundary_sample 1] 0 0 = (0, 0)
  /\ coverage_loop sample_extent [with_EndCol boundary_sample 2] 0 0 = (4, 4).
Proof.
  split; [reflexivity|].
  destruct (boundary_block_excluded_included sample_extent boundary_sample [] 0 0
              eq_refl) as [H0 H1].
  split; [exact H0 | exact (H1 eq_refl)].
Defined.

Lemma coverage_none (f : FuncExtent) (profile : Profile) :
  Forall (fun b => overlaps f b = false) (Blocks profile) ->
  coverage f profile = (0, 1).
Proof. intros H. unfold coverage. now rewrite coverage_loop_none. Qed.

(** C4. When no block of the profile overlaps the extent, [coverage]
    returns covered = 0 and total = 1: the denominator is not zero and the
    function's percentage, 100 * 0 / 1, is zero. *)
Theorem coverage_no_overlap (f : FuncExtent) (profile : Profile) :
  Forall (fun b => overlaps f b = false) (Blocks profile) ->
  coverage f profile = (0, 1)
  /\ percent_of (fst (coverage f profile)) (snd (coverage f profile)) = Float64.zero.
Proof.
  intros H. rewrite (coverage_none f profile H). split; reflexivity.
Qed.

Lemma coverage_no_overlap_witness :
  Forall (fun b => overlaps sample_extent b = false)
         [mkBlock 1 1 3 1 4 1; mkBlock 7 2 9 1 2 1]
  /\ coverage sample_extent (mkProfile "./a.go" [mkBlock 1 1 3 1 4 1; mkBlock 7 2 9 1 2 1])
     = (0, 1).
Proof.
  assert (H : Forall (fun b => overlaps sample_extent b = false)
                [mkBlock 1 1 3 1 4 1; mkBlock 7 2 9 1 2 1]).
  { repeat constructor. }
  split; [exact H|].
  exact (proj1 (coverage_no_overlap sample_extent
                  (mkProfile "./a.go" [mkBlock 1 1 3 1 4 1; mkBlock 7 2 9 1 2 1]) H)).
Defined.

(** ** Bounds of the coverage pair *)

Lemma overlapping_stmts_nonneg f bs :
  Forall (fun b => 0 <= NumStmt b) bs -> 0 <= overlapping_stmts f bs.
Proof.
  induction 1 as [|b bs Hb _ IH]; simpl; [lia|].
  destruct (overlaps f b); lia.
Qed.

Lemma coverage_loop_bounds f bs covered total :
  Forall (fun b => 0 <= NumStmt b) bs ->
  0 <= covered <= total ->
  total + overlapping_stmts f bs <= Int64.max_int ->
  0 <= fst (coverage_loop f bs covered total)
    <= snd (coverage_loop f bs covered total)
  /\ snd (coverage_loop f bs covered total) <= total + overlapping_stmts f bs.
Proof.
  intros Hnn. revert covered total.
  induction Hnn as [|b bs Hb Hbs IH]; intros covered total Hc Hsum; simpl in *.
  { lia. }
  pose proof (overlapping_stmts_nonneg f bs Hbs) as Hrest.
  rewrite overlaps_tests in Hsum |- *.
  destruct (past_end f b); simpl in *.
  { lia. }
  destruct (before_start f b); simpl in *.
  { apply IH; lia. }
  assert (Et : Int64.add total (NumStmt b) = total + NumStmt b).
  { apply add64_small. rewrite in_range_bounds.
    unfold Int64.max_int, Int64.half_modulus in Hsum. lia. }
  assert (Ec : Int64.add covered (NumStmt b) = covered + NumStmt b).
  { apply add64_small. rewrite in_range_bounds.
    unfold Int64.max_int, Int64.half_modulus in Hsum. lia. }
  rewrite Et, Ec.
  destruct (Count b >? 0).
  - specialize (IH (covered + NumStmt b) (total + NumStmt b)). lia.
  - specialize (IH covered (total + NumStmt b)). lia.
Qed.

(** C10, as stated, fails: the additions are [int64] additions, and two
    blocks whose non-negative statement counts add up to 2^63 make both
    sums wrap around to -2^63. *)
Lemma coverage_bounds_overflow :
  Forall (fun b => 0 <= NumStmt b) (Blocks huge_profile)
  /\ coverage sample_extent huge_profile = (- 2 ^ 63, - 2 ^ 63)
  /\ ~ coverage_bounds (coverage sample_extent huge_profile).
Proof.
  split; [repeat constructor; simpl; lia|].
  assert (E : coverage sample_extent huge_profile = (- 2 ^ 63, - 2 ^ 63))
    by (vm_compute; reflexivity).
  split; [exact E|]. rewrite E. unfold coverage_bounds. simpl. lia.
Qed.

(** C10, amended. When the statement counts are non-negative and those of
    the blocks overlapping the extent add up to at most 2^63 - 1, the pair
    returned satisfies 0 <= covered <= total and total >= 1, so that
    100 * covered / total lies between 0 and 100. *)
Theorem coverage_within_bounds (f : FuncExtent) (profile : Profile) :
  Forall (fun b => 0 <= NumStmt b) (Blocks profile) ->
  overlapping_stmts f (Blocks profile) <= Int64.max_int ->
  coverage_bounds (coverage f profile)
  /\ 0 <= 100 * fst (coverage f profile) / snd (coverage f profile) <= 100.
Proof.
  intros Hnn Hsum.
  assert (Hb : coverage_bounds (coverage f profile)).
  { pose proof (coverage_loop_bounds f (Blocks profile) 0 0 Hnn ltac:(lia) ltac:(lia))
      as [H1 H2].
    unfold coverage_bounds, coverage.
    destruct (coverage_loop f (Blocks profile) 0 0) as [c t]. simpl in *.
    destruct (Z.eqb_spec t 0); lia. }
  split; [exact Hb|].
  destruct Hb as [[H0 H1] H2].
  destruct (coverage f profile) as [c t]. simpl in *. split.
  - apply Z.div_pos; lia.
  - apply Z.div_le_upper_bound; lia.
Qed.

Lemma coverage_within_bounds_witness :
  Forall (fun b => 0 <= NumStmt b) (Blocks sample_profile)
  /\ overlapping_stmts sample_extent (Blocks sample_profile) <= Int64.max_int
  /\ coverage_bounds (coverage sample_extent sample_profile).
Proof.
  assert (H1 : Forall (fun b => 0 <= NumStmt b) (Blocks sample_profile)).
  { repeat constructor; simpl; lia. }
  assert (H2 : overlapping_stmts sample_extent (Blocks sample_profile) <= Int64.max_int).
  { vm_compute. discriminate. }
  split; [exact H1|]. split; [exact H2|].
  exact (proj1 (coverage_within_bounds sample_extent sample_profile H1 H2)).
Defined.

(** ** Comparisons of [float64] values *)

Lemma SFcompare_antisym (x y : spec_float) :
  SFcompare y x = option_map CompOpp (SFcompare x y).
Proof.
  destruct x as [sx|sx| |sx mx ex], y as [sy|sy| |sy my ey]; simpl;
    try reflexivity;
    try (destruct sx; reflexivity);
    try (destruct sy; reflexivity);
    try (destruct sx, sy; reflexivity).
  destruct sx, sy; simpl; try reflexivity;
    rewrite (Z.compare_antisym ex ey), (ZC4 my mx);
    destruct (ex ?= ey); simpl; try reflexivity;
    destruct (Pos.compare_cont Eq mx my); reflexivity.
Qed.

(** [x < y] excludes [y <= x]. *)
Lemma ltb_not_geb (x y : Float64.t) :
  Float64.ltb x y = true -> Float64.leb y x = false.
Proof.
  unfold Float64.ltb, Float64.leb, SFltb, SFleb.
  rewrite (SFcompare_antisym x y).
  destruct (SFcompare x y) as [[]|]; simpl; congruence.
Qed.

(** Above a positive number is above every positive number of smaller
    exponent. *)
Lemma gtb_finite_gap (ma mb : positive) (ea eb : Z) (p : Float64.t) :
  eb < ea ->
  Float64.gtb p (S754_finite false ma ea) = true ->
  Float64.leb p (S754_finite false mb eb) = false.
Proof.
  intros Hlt.
  unfold Float64.gtb, Float64.leb, SFltb, SFleb.
  destruct p as [s|s| |s m e]; simpl; try congruence;
    destruct s; simpl; try congruence.
  destruct (Z.compare_spec ea e) as [He|He|He]; try congruence.
  - subst e. assert (Hgt : (ea ?= eb) = Gt) by (apply Z.compare_gt_iff; lia).
    rewrite Hgt. congruence.
  - assert (Hgt : (e ?= eb) = Gt) by (apply Z.compare_gt_iff; lia).
    rewrite Hgt. congruence.
Qed.

(** Above 70 is above 30. *)
Lemma gtb_c70_not_leb_c30 (p : Float64.t) :
  Float64.gtb p Float64.c70 = true -> Float64.leb p Float64.c30 = false.
Proof. apply gtb_finite_gap. reflexivity. Qed.

(** ** Colours *)

(** C9. For every percentage p, the colour is red exactly when p <= 30,
    yellow exactly when 30 < p <= 70 and green exactly when p > 70; the
    file rows and the total row of a report are coloured by this rule. *)
Theorem getColor_buckets :
  (forall p : Float64.t,
     (getColor p = Red <-> Float64.leb p Float64.c30 = true)
     /\ (getColor p = Yellow <->
         Float64.gtb p Float64.c30 = true /\ Float64.leb p Float64.c70 = true)
     /\ (getColor p = Green <-> Float64.gtb p Float64.c70 = true))
  /\ (forall coverfiles covered total,
        Forall line_color_ok (render coverfiles covered total)).
Proof.
  split.
  - intros p. unfold getColor.
    destruct (Float64.leb p Float64.c30) eqn:E30.
    + repeat split; try congruence.
      * intros [H _]. apply ltb_not_geb in H. congruence.
      * intros H. apply gtb_c70_not_leb_c30 in H. congruence.
    + destruct (Float64.gtb p Float64.c30) eqn:G30; simpl.
      * destruct (Float64.leb p Float64.c70) eqn:E70.
        -- repeat split; try congruence.
           intros H. apply ltb_not_geb in H. congruence.
        -- destruct (Float64.gtb p Float64.c70) eqn:G70;
             repeat split; try congruence; intros [_ H]; congruence.
      * destruct (Float64.gtb p Float64.c70) eqn:G70;
          repeat split; try congruence; intros [H _]; congruence.
  - intros coverfiles covered total. unfold render.
    apply Forall_app. split.
    + induction coverfiles as [|c cs IH]; simpl; constructor;
        [reflexivity | exact IH].
    + repeat constructor.
Qed.

(** The boundaries: exactly 30% is red, exactly 70% yellow, 70.1% green;
    a NaN gets the default colour. *)
Example getColor_30 : getColor (percent_of 3 10) = Red.
Proof. vm_compute. reflexivity. Qed.

Example getColor_70 : getColor (percent_of 7 10) = Yellow.
Proof. vm_compute. reflexivity. Qed.

Example getColor_70_1 : getColor (percent_of 701 1000) = Green.
Proof. vm_compute. reflexivity. Qed.

Example getColor_nan : getColor (percent_of 0 0) = Default.
Proof. vm_compute. reflexivity. Qed.

(** ** The extent visitor *)

Lemma Visit_nil v : Visit v None = v.
Proof. reflexivity. Qed.

Lemma Visit_funcs v n :
  funcs (Visit v (Some n)) = funcs v ++ omap decl_extent [n].
Proof.
  destruct n as [k children]. unfold decl_extent. simpl.
  destruct k; simpl; now rewrite ?app_nil_r.
Qed.

Lemma omap_flat_map {A B C} (f : B -> option C) (g : A -> list B) (l : list A) :
  omap f (flat_map g l) = flat_map (fun a => omap f (g a)) l.
Proof.
  induction l as [|a l IH]; simpl; [reflexivity|].
  now rewrite omap_app, IH.
Qed.

Lemma Walk_children_funcs (children : list Node) :
  Forall (fun n => forall v,
            funcs (Walk v n) = funcs v ++ omap decl_extent (preorder n)) children ->
  forall v, funcs (fold_left Walk children v)
            = funcs v ++ omap decl_extent (flat_map preorder children).
Proof.
  induction 1 as [|c cs Hc _ IH]; intros v; simpl.
  - now rewrite app_nil_r.
  - rewrite IH, Hc, omap_app, app_assoc. reflexivity.
Qed.

(** The visitor ends with the extents of all function declaration nodes,
    in the order of the walk. *)
Lemma Walk_funcs (n : Node) (v : FuncVisitor) :
  funcs (Walk v n) = funcs v ++ omap decl_extent (preorder n).
Proof.
  revert v. induction n as [k children IH] using Node_forall_ind. intros v.
  change (Walk v (mkNode k children))
    with (Visit (fold_left Walk children (Visit v (Some (mkNode k children)))) None).
  rewrite Visit_nil, (Walk_children_funcs children IH), Visit_funcs.
  change (preorder (mkNode k children))
    with (mkNode k children :: flat_map preorder children).
  change (mkNode k children :: flat_map preorder children)
    with ([mkNode k children] ++ flat_map preorder children).
  now rewrite omap_app, app_assoc.
Qed.

Lemma omap_decl_extent_none (ns : list Node) :
  Forall (fun n => is_FuncDecl n = false) ns -> omap decl_extent ns = [].
Proof.
  induction 1 as [|n ns Hn _ IH]; [reflexivity|].
  change (omap decl_extent (n :: ns))
    with (match decl_extent n with Some y => y :: omap decl_extent ns
                                 | None => omap decl_extent ns end).
  rewrite IH. unfold decl_extent, is_FuncDecl in *.
  destruct (node_kind n); [discriminate|reflexivity|reflexivity].
Qed.

Lemma go_shaped_preorder (file : Node) :
  go_shaped file ->
  omap decl_extent (preorder file) = omap decl_extent (node_children file).
Proof.
  destruct file as [k children]. intros [Hfile Hdecls]. simpl in Hdecls.
  change (preorder (mkNode k children))
    with ([mkNode k children] ++ flat_map preorder children).
  rewrite omap_app, (omap_decl_extent_none [mkNode k children]) by (now constructor).
  simpl. clear Hfile. induction Hdecls as [|d ds Hd _ IH]; [reflexivity|].
  change (flat_map preorder (d :: ds)) with (preorder d ++ flat_map preorder ds).
  change (d :: ds) with ([d] ++ ds).
  rewrite !omap_app, IH. destruct d as [kd cd]. simpl in Hd.
  change (preorder (mkNode kd cd)) with ([mkNode kd cd] ++ flat_map preorder cd).
  rewrite omap_app, (omap_decl_extent_none (flat_map preorder cd) Hd), app_nil_r.
  reflexivity.
Qed.

(** C3, as stated, fails: the visitor's single case [*ast.FuncDecl] also
    matches method declarations, so the method [M] is collected, while the
    specification lists the plain function [F] only. *)
Lemma test_collects_method :
  test (fun _ => Ok method_file) "a.go"
    = Ok [ mkExtent "M" 3 1 3 19; mkExtent "F" 5 1 8 2 ]%string
  /\ test (fun _ => Ok method_file) "a.go"
     <> Ok (omap decl_extent (filter plain_function (node_children method_file))).
Proof. split; [reflexivity|]. vm_compute. discriminate. Qed.

(** C3, amended. The extractor collects exactly the function declaration
    nodes of the parsed file, methods included, in the order of the walk;
    for a file as the parser builds it these are the declarations at top
    level. Function literals and all other nodes are never collected. A
    parse error is returned as it is. *)
Theorem test_collects_FuncDecls
    (ParseFile : string -> Result Node) (path : string) :
  match ParseFile path with
  | Err e => test ParseFile path = Err e
  | Ok file =>
      test ParseFile path = Ok (omap decl_extent (preorder file))
      /\ (go_shaped file ->
          test ParseFile path = Ok (omap decl_extent (node_children file)))
      /\ (forall n, n ∈ preorder file ->
          is_FuncDecl n = false -> decl_extent n = None)
  end.
Proof.
  unfold test. destruct (ParseFile path) as [file|e]; simpl; [|reflexivity].
  rewrite Walk_funcs. simpl. split; [reflexivity|]. split.
  - intros H. now rewrite go_shaped_preorder.
  - intros n _. unfold is_FuncDecl, decl_extent.
    destruct (node_kind n); [discriminate|reflexivity|reflexivity].
Qed.

(** ** The order of [float64] values

    A number that is not NaN is placed on a line of integer triples,
    ordered lexicographically, so that comparisons become arithmetic. *)

Lemma SFcompare_key (x y : Float64.t) :
  Float64.is_nan x = false -> Float64.is_nan y = false ->
  exists c, SFcompare x y = Some c
    /\ match c with
       | Lt => key_lt (float_key x) (float_key y)
       | Eq => key_eq (float_key x) (float_key y)
       | Gt => key_lt (float_key y) (float_key x)
       end.
Proof.
  unfold key_lt, key_eq.
  destruct x as [sx|sx| |sx mx ex], y as [sy|sy| |sy my ey];
    simpl; try discriminate; intros _ _;
    try (eexists; (split; [reflexivity|]); simpl; lia);
    try (destruct sx; eexists; (split; [reflexivity|]); simpl; lia);
    try (destruct sy; eexists; (split; [reflexivity|]); simpl; lia);
    try (destruct sx, sy; eexists; (split; [reflexivity|]); simpl; lia).
  change (Pos.compare_cont Eq mx my) with (Pos.compare mx my).
  destruct sx, sy; eexists; (split; [reflexivity|]); simpl;
    destruct (Z.compare_spec ex ey); try lia;
    destruct (Pos.compare_spec mx my); simpl; lia.
Qed.

Lemma leb_key (x y : Float64.t) :
  Float64.leb x y = true <->
  Float64.is_nan x = false /\ Float64.is_nan y = false
  /\ (key_lt (float_key x) (float_key y) \/ key_eq (float_key x) (float_key y)).
Proof.
  unfold Float64.leb, SFleb. split.
  - intros H.
    assert (Hx : Float64.is_nan x = false) by (destruct x; [easy|easy|discriminate|easy]).
    assert (Hy : Float64.is_nan y = false)
      by (destruct x, y; try easy; discriminate).
    destruct (SFcompare_key x y Hx Hy) as [c [Ec Hc]]. rewrite Ec in H.
    destruct c; try discriminate; tauto.
  - intros (Hx & Hy & H).
    destruct (SFcompare_key x y Hx Hy) as [c [Ec Hc]]. rewrite Ec.
    destruct c; try reflexivity. unfold key_lt, key_eq in *. lia.
Qed.

Lemma ltb_key (x y : Float64.t) :
  Float64.ltb x y = true <->
  Float64.is_nan x = false /\ Float64.is_nan y = false
  /\ key_lt (float_key x) (float_key y).
Proof.
  unfold Float64.ltb, SFltb. split.
  - intros H.
    assert (Hx : Float64.is_nan x = false) by (destruct x; [easy|easy|discriminate|easy]).
    assert (Hy : Float64.is_nan y = false)
      by (destruct x, y; try easy; discriminate).
    destruct (SFcompare_key x y Hx Hy) as [c [Ec Hc]]. rewrite Ec in H.
    destruct c; try discriminate; tauto.
  - intros (Hx & Hy & H).
    destruct (SFcompare_key x y Hx Hy) as [c [Ec Hc]]. rewrite Ec.
    destruct c; try reflexivity; unfold key_lt, key_eq in *; lia.
Qed.

Lemma eqb_key (x y : Float64.t) :
  Float64.eqb x y = true <->
  Float64.is_nan x = false /\ Float64.is_nan y = false
  /\ key_eq (float_key x) (float_key y).
Proof.
  unfold Float64.eqb, SFeqb. split.
  - intros H.
    assert (Hx : Float64.is_nan x = false) by (destruct x; [easy|easy|discriminate|easy]).
    assert (Hy : Float64.is_nan y = false)
      by (destruct x, y; try easy; discriminate).
    destruct (SFcompare_key x y Hx Hy) as [c [Ec Hc]]. rewrite Ec in H.
    destruct c; try discriminate; tauto.
  - intros (Hx & Hy & H).
    destruct (SFcompare_key x y Hx Hy) as [c [Ec Hc]]. rewrite Ec.
    destruct c; try reflexivity; unfold key_lt, key_eq in *; lia.
Qed.

Lemma ltb_leb (x y : Float64.t) :
  Float64.ltb x y = true -> Float64.leb x y = true.
Proof. rewrite ltb_key, leb_key. tauto. Qed.

Lemma leb_total (x y : Float64.t) :
  Float64.is_nan x = false -> Float64.is_nan y = false ->
  Float64.leb x y = false -> Float64.ltb y x = true.
Proof.
  intros Hx Hy H. apply ltb_key. split; [exact Hy|]. split; [exact Hx|].
  destruct (SFcompare_key x y Hx Hy) as [c [Ec Hc]].
  unfold Float64.leb, SFleb in H. rewrite Ec in H.
  destruct c; try discriminate. exact Hc.
Qed.

Lemma ltb_total (x y : Float64.t) :
  Float64.is_nan x = false -> Float64.is_nan y = false ->
  Float64.ltb x y = false -> Float64.leb y x = true.
Proof.
  intros Hx Hy H. apply leb_key. split; [exact Hy|]. split; [exact Hx|].
  destruct (SFcompare_key x y Hx Hy) as [c [Ec Hc]].
  unfold Float64.ltb, SFltb in H. rewrite Ec in H.
  destruct c; try discriminate; unfold key_lt, key_eq in *; lia.
Qed.

Lemma leb_trans (x y z : Float64.t) :
  Float64.leb x y = true -> Float64.leb y z = true -> Float64.leb x z = true.
Proof.
  rewrite !leb_key. unfold key_lt, key_eq.
  intros (Hx & Hy & H1) (_ & Hz & H2). repeat split; try assumption. lia.
Qed.

Lemma eqb_not_ltb (x y p : Float64.t) :
  Float64.eqb x p = true -> Float64.eqb y p = true -> Float64.ltb x y = false.
Proof.
  rewrite !eqb_key. intros (Hx & _ & H1) (Hy & _ & H2).
  destruct (Float64.ltb x y) eqn:E; [|reflexivity].
  apply ltb_key in E as (_ & _ & E). unfold key_lt, key_eq in *. lia.
Qed.

(** ** Insertion sort *)

Section InsertionSortFacts.
Context {A : Type} (cmp : A -> A -> bool).

Lemma swap_cons (a : A) (l : list A) (i j : nat) :
  swap (a :: l) (S i) (S j) = a :: swap l i j.
Proof. unfold swap. simpl. destruct (l !! i), (l !! j); reflexivity. Qed.

Lemma swap_adjacent (pre suf : list A) (x y : A) :
  swap (pre ++ y :: x :: suf) (S (length pre)) (length pre) = pre ++ x :: y :: suf.
Proof.
  induction pre as [|a pre IH]; simpl; [reflexivity|].
  now rewrite swap_cons, IH.
Qed.

Lemma less_of_adjacent (pre suf : list A) (x y : A) :
  less_of cmp (pre ++ y :: x :: suf) (S (length pre)) (length pre) = cmp x y.
Proof.
  unfold less_of. induction pre as [|a pre IH]; simpl; [reflexivity|]. exact IH.
Qed.

Lemma insert_left_length (x : A) (r : list A) :
  length (insert_left cmp x r) = S (length r).
Proof.
  induction r as [|y r IH]; simpl; [reflexivity|].
  destruct (cmp x y); simpl; now rewrite ?IH.
Qed.

(** The inner loop inserts the element at index [length pre] into the
    prefix before it. *)
Lemma insertion_inner_spec (pre suf : list A) (x : A) :
  insertion_inner (less_of cmp) 0 (length pre) (pre ++ x :: suf)
  = rev (insert_left cmp x (rev pre)) ++ suf.
Proof.
  revert x suf. induction pre as [|y pre IH] using rev_ind; intros x suf.
  - reflexivity.
  - rewrite length_app, Nat.add_1_r, rev_app_distr. simpl.
    rewrite <- app_assoc. simpl.
    rewrite less_of_adjacent, swap_adjacent.
    destruct (cmp x y); simpl.
    + rewrite IH, <- app_assoc. reflexivity.
    + rewrite rev_involutive, <- !app_assoc. reflexivity.
Qed.

Lemma insertion_outer_spec (suf pre : list A) :
  fold_left (fun d i => insertion_inner (less_of cmp) 0 i d)
            (seq (length pre) (length suf)) (pre ++ suf)
  = rev (isort_rev cmp suf (rev pre)).
Proof.
  revert pre. induction suf as [|x suf IH]; intros pre; simpl.
  - now rewrite app_nil_r, rev_involutive.
  - rewrite insertion_inner_spec.
    specialize (IH (rev (insert_left cmp x (rev pre)))).
    rewrite length_rev, insert_left_length, length_rev, rev_involutive in IH.
    exact IH.
Qed.

(** The insertion path of [sort.Slice] is insertion from the left. *)
Lemma sort_Slice_small_spec (data : list A) :
  sort_Slice_small data (less_of cmp) = rev (isort_rev cmp data []).
Proof.
  unfold sort_Slice_small, insertionSort_func.
  destruct data as [|d data]; [reflexivity|].
  simpl. rewrite Nat.sub_0_r. exact (insertion_outer_spec data [d]).
Qed.

Lemma insert_left_perm (x : A) (r : list A) :
  Permutation (x :: r) (insert_left cmp x r).
Proof.
  induction r as [|y r IH]; simpl; [reflexivity|].
  destruct (cmp x y); [|reflexivity].
  rewrite perm_swap. now constructor.
Qed.

Lemma isort_rev_perm (l acc : list A) :
  Permutation (l ++ acc) (isort_rev cmp l acc).
Proof.
  revert acc. induction l as [|x l IH]; intros acc; simpl; [reflexivity|].
  unfold isort_rev in *. simpl. rewrite <- IH.
  rewrite <- insert_left_perm. apply Permutation_middle.
Qed.

Lemma insert_left_Forall (P : A -> Prop) (x : A) (r : list A) :
  P x -> Forall P r -> Forall P (insert_left cmp x r).
Proof.
  intros Hx Hr. eapply Permutation_Forall; [apply insert_left_perm|].
  now constructor.
Qed.

(** *** Order *)

Section Order.
Variable ok : A -> Prop.
Variable R : A -> A -> Prop.
Hypothesis cmp_move : forall x y, ok x -> ok y -> cmp x y = true -> R y x.
Hypothesis cmp_stop : forall x y, ok x -> ok y -> cmp x y = false -> R x y.
Hypothesis R_trans : forall x y z, R x y -> R y z -> R x z.

Lemma insert_left_sorted (x : A) (r : list A) :
  ok x -> Forall ok r -> StronglySorted R r ->
  StronglySorted R (insert_left cmp x r).
Proof.
  intros Hx Hok Hs. induction r as [|y r IH]; simpl.
  - repeat constructor.
  - apply Forall_cons in Hok as [Hy Hok].
    apply StronglySorted_inv in Hs as [Hs Hyr].
    destruct (cmp x y) eqn:E.
    + constructor; [now apply IH|].
      apply insert_left_Forall; [now apply cmp_move | exact Hyr].
    + constructor; [now constructor|].
      constructor; [now apply cmp_stop|].
      eapply Forall_impl; [exact Hyr|].
      intros z Hz. simpl in Hz. eapply R_trans; [|exact Hz]. now apply cmp_stop.
Qed.

Lemma isort_rev_sorted (l acc : list A) :
  Forall ok l -> Forall ok acc -> StronglySorted R acc ->
  StronglySorted R (isort_rev cmp l acc)
  /\ Forall ok (isort_rev cmp l acc).
Proof.
  intros Hl. revert acc. induction Hl as [|x l Hx Hl IH]; intros acc Hacc Hs.
  - now split.
  - apply IH.
    + now apply insert_left_Forall.
    + now apply insert_left_sorted.
Qed.

(** *** Elements that are passed by all their ties *)

Variable T : A -> bool.
Hypothesis T_stop : forall x y z,
  ok x -> ok y -> ok z ->
  T x = true -> cmp x y = false -> (z = y \/ R y z) -> T z = false.

Lemma filter_insert_left_pass (x : A) (r : list A) :
  ok x -> Forall ok r -> StronglySorted R r ->
  List.filter T (insert_left cmp x r)
  = if T x then List.filter T r ++ [x] else List.filter T r.
Proof.
  intros Hx Hok Hs. induction r as [|y r IH]; simpl.
  - destruct (T x); reflexivity.
  - apply Forall_cons in Hok as [Hy Hok].
    apply StronglySorted_inv in Hs as [Hs Hyr].
    destruct (cmp x y) eqn:E; simpl.
    + rewrite (IH Hok Hs). destruct (T y), (T x); reflexivity.
    + destruct (T x) eqn:Tx; [|reflexivity].
      assert (Ty : T y = false) by (apply (T_stop x y y); auto).
      rewrite Ty.
      assert (Hnone : List.filter T r = []).
      { clear IH Hs. induction r as [|z r IHr]; [reflexivity|].
        apply Forall_cons in Hok as [Hz Hok]. apply Forall_cons in Hyr as [Hyz Hyr].
        simpl. rewrite (T_stop x y z) by auto. now apply IHr. }
      rewrite Hnone. reflexivity.
Qed.

Lemma filter_isort_rev_pass (l acc : list A) :
  Forall ok l -> Forall ok acc -> StronglySorted R acc ->
  List.filter T (isort_rev cmp l acc) = List.filter T acc ++ List.filter T l.
Proof.
  intros Hl. revert acc. induction Hl as [|x l Hx Hl IH]; intros acc Hacc Hs.
  - simpl. now rewrite app_nil_r.
  - unfold isort_rev in *. simpl. rewrite IH.
    + rewrite filter_insert_left_pass by assumption.
      destruct (T x); [now rewrite <- app_assoc | reflexivity].
    + now apply insert_left_Forall.
    + now apply insert_left_sorted.
Qed.

End Order.

(** *** Elements that never pass a tie *)

Lemma filter_insert_left_stay (T : A -> bool) (x : A) (r : list A) :
  (forall y, T x = true -> T y = true -> cmp x y = false) ->
  List.filter T (insert_left cmp x r)
  = if T x then x :: List.filter T r else List.filter T r.
Proof.
  intros Hstay. induction r as [|y r IH]; simpl.
  - destruct (T x); reflexivity.
  - destruct (cmp x y) eqn:E; simpl.
    + rewrite IH. destruct (T x) eqn:Tx, (T y) eqn:Ty; try reflexivity.
      rewrite Hstay in E by auto. discriminate.
    + destruct (T x); reflexivity.
Qed.

Lemma filter_isort_rev_stay (T : A -> bool) (l acc : list A) :
  (forall x y, T x = true -> T y = true -> cmp x y = false) ->
  List.filter T (isort_rev cmp l acc) = rev (List.filter T l) ++ List.filter T acc.
Proof.
  intros Hstay. revert acc. induction l as [|x l IH]; intros acc; [reflexivity|].
  unfold isort_rev in *. simpl. rewrite IH, filter_insert_left_stay by auto.
  destruct (T x); simpl; [now rewrite <- app_assoc | reflexivity].
Qed.

Lemma StronglySorted_rev (R : A -> A -> Prop) (r : list A) :
  StronglySorted R r -> StronglySorted (fun x y => R y x) (rev r).
Proof.
  induction 1 as [|a r Hs IH Ha]; simpl; [constructor|].
  apply StronglySorted_app. split; [|split; [exact IH | repeat constructor]].
  intros x1 x2 H1 H2. apply list_elem_of_In in H1, H2.
  apply in_rev in H1. destruct H2 as [<-|[]].
  rewrite List.Forall_forall in Ha. now apply Ha.
Qed.

End InsertionSortFacts.



(** ** Conversion of positive integers to [float64] *)

Lemma digits2_pos_lower (p : positive) :
  2 ^ (Zpos (digits2_pos p) - 1) <= Zpos p.
Proof.
  induction p as [p IH|p IH|]; simpl digits2_pos.
  - rewrite Pos2Z.inj_succ.
    replace (Z.succ (Zpos (digits2_pos p)) - 1) with (Z.succ (Zpos (digits2_pos p) - 1)) by lia.
    rewrite Z.pow_succ_r by lia. lia.
  - rewrite Pos2Z.inj_succ.
    replace (Z.succ (Zpos (digits2_pos p)) - 1) with (Z.succ (Zpos (digits2_pos p) - 1)) by lia.
    rewrite Z.pow_succ_r by lia. lia.
  - simpl. lia.
Qed.

Lemma shr_1_m (mrs : shr_record) :
  0 <= shr_m mrs -> shr_m (shr_1 mrs) = shr_m mrs / 2.
Proof.
  destruct mrs as [m r s]. simpl. intros Hm.
  destruct m as [|[p|p|]|p]; cbn [shr_m]; try lia; try reflexivity.
  - apply Z.div_unique with (r := 1); lia.
  - apply Z.div_unique with (r := 0); lia.
Qed.

Lemma iter_shr_1_m (p : positive) (mrs : shr_record) :
  0 <= shr_m mrs ->
  shr_m (iter_pos shr_1 p mrs) = shr_m mrs / 2 ^ Zpos p.
Proof.
  revert mrs. induction p as [p IH|p IH|]; intros mrs Hm; simpl iter_pos.
  - assert (H1 : 0 <= shr_m (shr_1 mrs)).
    { rewrite shr_1_m by exact Hm. apply Z.div_pos; lia. }
    assert (H2 : 0 <= shr_m (iter_pos shr_1 p (shr_1 mrs))).
    { rewrite IH by exact H1. apply Z.div_pos; [exact H1|]. apply Z.pow_pos_nonneg; lia. }
    rewrite IH, IH, shr_1_m by assumption.
    rewrite !Z.div_div by (pose proof (Z.pow_pos_nonneg 2 (Zpos p)); lia).
    f_equal. change 2 with (2 ^ 1) at 1.
    rewrite <- !Z.pow_add_r by lia. f_equal. lia.
  - assert (H2 : 0 <= shr_m (iter_pos shr_1 p mrs)).
    { rewrite IH by exact Hm. apply Z.div_pos; [exact Hm|]. apply Z.pow_pos_nonneg; lia. }
    rewrite IH, IH by assumption.
    rewrite !Z.div_div by (pose proof (Z.pow_pos_nonneg 2 (Zpos p)); lia).
    f_equal. rewrite <- !Z.pow_add_r by lia. f_equal. lia.
  - rewrite shr_1_m by exact Hm. reflexivity.
Qed.

Lemma shr_record_of_loc_m (m : Z) (l : location) :
  shr_m (shr_record_of_loc m l) = m.
Proof. destruct l as [|[]]; reflexivity. Qed.

(** Shifting a positive mantissa to its place keeps it positive, as long
    as the exponent is not below the smallest one. *)
Lemma shr_fexp_pos (m : positive) (e : Z) (l : location) :
  emin Float64.prec Float64.emax <= e ->
  0 < shr_m (fst (shr_fexp Float64.prec Float64.emax (Zpos m) e l))
  /\ emin Float64.prec Float64.emax
       <= snd (shr_fexp Float64.prec Float64.emax (Zpos m) e l).
Proof.
  unfold shr_fexp, shr, fexp, emin, Float64.prec, Float64.emax. intros He.
  simpl Zdigits2.
  pose proof (digits2_pos_lower m) as Hd.
  destruct (Z.max (Zpos (digits2_pos m) + e - 53) (3 - 1024 - 53) - e) as [|k|k] eqn:Ek;
    simpl fst; simpl snd; rewrite ?shr_record_of_loc_m; try lia.
  rewrite iter_shr_1_m by (rewrite shr_record_of_loc_m; lia).
  rewrite shr_record_of_loc_m. split; [|lia].
  assert (Hk : Zpos k <= Zpos (digits2_pos m) - 1) by lia.
  assert (Hp : 2 ^ Zpos k <= 2 ^ (Zpos (digits2_pos m) - 1))
    by (apply Z.pow_le_mono_r; lia).
  apply Z.div_str_pos. split; [apply Z.pow_pos_nonneg; lia | lia].
Qed.





(** ** The order of the rows *)

Lemma tie_stop (p : Float64.t) (x y z : coveredFile) :
  not_nan x -> not_nan y -> not_nan z ->
  tie p x = true ->
  Float64.leb (percent y) (percent x) = false ->
  z = y \/ Float64.leb (percent y) (percent z) = true ->
  tie p z = false.
Proof.
  unfold not_nan, tie. intros Hx Hy Hz Tx Hxy Hyz.
  apply leb_total in Hxy; try assumption.
  apply ltb_key in Hxy as (_ & _ & Hxy).
  apply eqb_key in Tx as (_ & Hp & Tx).
  destruct (Float64.eqb (percent z) p) eqn:Tz; [|reflexivity].
  apply eqb_key in Tz as (_ & _ & Tz).
  destruct Hyz as [->|Hyz].
  - unfold key_lt, key_eq in *. lia.
  - apply leb_key in Hyz as (_ & _ & Hyz). unfold key_lt, key_eq in *. lia.
Qed.

(** Insertion with [less_percent] orders the rows in the direction asked
    for; ties keep their order when ascending and are reversed when
    descending. *)
Lemma insertion_rows_order (reverse : bool) (coverfiles : list coveredFile) :
  Forall not_nan coverfiles ->
  let sorted := sort_Slice_small coverfiles (less_percent reverse) in
  Permutation coverfiles sorted
  /\ (if reverse
      then descending sorted
           /\ forall p, List.filter (tie p) sorted = rev (List.filter (tie p) coverfiles)
      else ascending sorted
           /\ forall p, List.filter (tie p) sorted = List.filter (tie p) coverfiles).
Proof.
  intros Hok sorted.
  assert (E : sorted = rev (isort_rev (cmp_percent reverse) coverfiles [])).
  { apply (sort_Slice_small_spec (cmp_percent reverse)). }
  rewrite E. clear E sorted. split.
  - rewrite <- Permutation_rev.
    rewrite <- (isort_rev_perm (cmp_percent reverse) coverfiles []).
    now rewrite app_nil_r.
  - destruct reverse.
    + assert (Hmove : forall x y, not_nan x -> not_nan y ->
                cmp_percent true x y = true ->
                Float64.leb (percent y) (percent x) = true) by (intros; assumption).
      assert (Hstop : forall x y, not_nan x -> not_nan y ->
                cmp_percent true x y = false ->
                Float64.leb (percent x) (percent y) = true).
      { intros x y Hx Hy H. apply ltb_leb, leb_total; assumption. }
      assert (Htrans : forall x y z : coveredFile,
                Float64.leb (percent x) (percent y) = true ->
                Float64.leb (percent y) (percent z) = true ->
                Float64.leb (percent x) (percent z) = true)
        by (intros x y z; apply leb_trans).
      split.
      * apply (StronglySorted_rev
                 (fun x y => Float64.leb (percent x) (percent y) = true)).
        apply (isort_rev_sorted (cmp_percent true) not_nan _ Hmove Hstop Htrans);
          [exact Hok | constructor | constructor].
      * intros p. rewrite List.filter_rev. f_equal.
        rewrite (filter_isort_rev_pass (cmp_percent true) not_nan _ Hmove Hstop Htrans
                   (tie p)); [reflexivity| |exact Hok|constructor|constructor].
        intros x y z Hx Hy Hz Tx Hc Hyz. exact (tie_stop p x y z Hx Hy Hz Tx Hc Hyz).
    + assert (Hmove : forall x y, not_nan x -> not_nan y ->
                cmp_percent false x y = true ->
                Float64.leb (percent x) (percent y) = true)
        by (intros x y _ _ H; apply ltb_leb, H).
      assert (Hstop : forall x y, not_nan x -> not_nan y ->
                cmp_percent false x y = false ->
                Float64.leb (percent y) (percent x) = true).
      { intros x y Hx Hy H. apply ltb_total; assumption. }
      assert (Htrans : forall x y z : coveredFile,
                Float64.leb (percent y) (percent x) = true ->
                Float64.leb (percent z) (percent y) = true ->
                Float64.leb (percent z) (percent x) = true)
        by (intros x y z H1 H2; exact (leb_trans _ _ _ H2 H1)).
      split.
      * apply (StronglySorted_rev
                 (fun x y => Float64.leb (percent y) (percent x) = true)).
        apply (isort_rev_sorted (cmp_percent false) not_nan _ Hmove Hstop Htrans);
          [exact Hok | constructor | constructor].
      * intros p. rewrite List.filter_rev.
        rewrite (filter_isort_rev_stay (cmp_percent false) (tie p)).
        -- simpl. now rewrite app_nil_r, rev_involutive.
        -- intros x y Tx Ty. exact (eqb_not_ltb _ _ p Tx Ty).
Qed.




(** ** The loops of [run] *)

Lemma fold_left_add64 (ds : list Z) (a : Z) :
  Int64.in_range a -> fold_left Int64.add ds a = Int64.wrap (a + Zsum ds).
Proof.
  revert a. induction ds as [|d ds IH]; intros a Ha; simpl.
  - now rewrite Z.add_0_r, wrap_small.
  - rewrite IH by apply wrap_in_range.
    unfold Int64.add. rewrite wrap_add_l. f_equal. lia.
Qed.

(** The [int64] sum is the exact sum, reduced to 64 bits. *)
Lemma Int64_sum_wrap (l : list Z) : Int64.sum l = Int64.wrap (Zsum l).
Proof. unfold Int64.sum. now rewrite fold_left_add64. Qed.

Lemma fold_left_add64_sum (ds : list Z) (a : Z) :
  Int64.in_range a -> fold_left Int64.add ds a = Int64.add a (Int64.sum ds).
Proof.
  intros Ha. rewrite fold_left_add64, Int64_sum_wrap by exact Ha.
  unfold Int64.add. now rewrite wrap_add_r.
Qed.

Lemma Int64_sum_in_range (l : list Z) : Int64.in_range (Int64.sum l).
Proof. rewrite Int64_sum_wrap. apply wrap_in_range. Qed.

Lemma extent_loop_fold (profile : Profile) (fe : list FuncExtent)
    (fileTotal fileCovered total covered : Z) :
  fold_left (extent_step profile) fe (fileTotal, fileCovered, total, covered)
  = (fold_left Int64.add (map (fun g => snd (coverage g profile)) fe) fileTotal,
     fold_left Int64.add (map (fun g => fst (coverage g profile)) fe) fileCovered,
     fold_left Int64.add (map (fun g => snd (coverage g profile)) fe) total,
     fold_left Int64.add (map (fun g => fst (coverage g profile)) fe) covered).
Proof.
  revert fileTotal fileCovered total covered.
  induction fe as [|g fe IH]; intros; simpl; [reflexivity|].
  destruct (coverage g profile) as [n d] eqn:E. simpl. apply IH.
Qed.

(** The counts of a file are the [int64] sums of the pairs returned by
    [coverage] for its functions. *)
Lemma file_counts_sums (profile : Profile) (fe : list FuncExtent) :
  file_counts profile fe
  = (Int64.sum (map (fun g => fst (coverage g profile)) fe),
     Int64.sum (map (fun g => snd (coverage g profile)) fe)).
Proof. unfold file_counts, extent_loop. now rewrite extent_loop_fold. Qed.

Lemma extent_loop_counts (profile : Profile) (fe : list FuncExtent)
    (total covered : Z) :
  Int64.in_range total -> Int64.in_range covered ->
  extent_loop profile fe total covered
  = (snd (file_counts profile fe), fst (file_counts profile fe),
     Int64.add total (snd (file_counts profile fe)),
     Int64.add covered (fst (file_counts profile fe))).
Proof.
  intros Ht Hc. rewrite file_counts_sums. unfold extent_loop.
  rewrite extent_loop_fold. simpl.
  rewrite (fold_left_add64_sum _ total Ht), (fold_left_add64_sum _ covered Hc).
  reflexivity.
Qed.

Lemma add64_in_range (a b : Z) : Int64.in_range (Int64.add a b).
Proof. apply wrap_in_range. Qed.

Section RunFacts.
Variable ParseProfiles : string -> Result (list Profile).
Variable go_list : list string -> Result (list (Result Pkg)).
Variable ParseFile : string -> Result Node.
Variable path_Dir : string -> string.
Variable path_Base : string -> string.
Variable filepath_Join : string -> string -> string.
Variable filepath_IsAbs : string -> bool.
Variable sort_Slice :
  list coveredFile -> (list coveredFile -> nat -> nat -> bool) -> list coveredFile.

Local Abbreviation findFile := (findFile path_Dir path_Base filepath_Join filepath_IsAbs).
Local Abbreviation findPkgs := (findPkgs go_list path_Dir filepath_IsAbs).
Local Abbreviation test := (test ParseFile).
Local Abbreviation file_result :=
  (file_result ParseFile path_Dir path_Base filepath_Join filepath_IsAbs).
Local Abbreviation profile_loop :=
  (profile_loop ParseFile path_Dir path_Base filepath_Join filepath_IsAbs).
Local Abbreviation aggregate :=
  (aggregate ParseProfiles go_list ParseFile path_Dir path_Base filepath_Join
     filepath_IsAbs).
Local Abbreviation run :=
  (run ParseProfiles go_list ParseFile path_Dir path_Base filepath_Join
     filepath_IsAbs sort_Slice).
Local Abbreviation Action :=
  (Action ParseProfiles go_list ParseFile path_Dir path_Base filepath_Join
     filepath_IsAbs sort_Slice).
Local Abbreviation main :=
  (main ParseProfiles go_list ParseFile path_Dir path_Base filepath_Join
     filepath_IsAbs sort_Slice).

(** One iteration of the loop over the profiles. *)
Lemma profile_loop_step dirs profile rest total covered coverfiles r :
  Int64.in_range total -> Int64.in_range covered ->
  file_result dirs profile = Ok r ->
  profile_loop dirs (profile :: rest) total covered coverfiles
  = profile_loop dirs rest (Int64.add total r.2.2) (Int64.add covered r.2.1)
      (coverfiles ++ [row_of r]).
Proof.
  intros Ht Hc. unfold file_result. simpl.
  destruct (findFile dirs (FileName profile)) as [f|e]; simpl; [|discriminate].
  destruct (test f) as [fe|e]; simpl; [|discriminate].
  intros [= <-]. rewrite extent_loop_counts by assumption. reflexivity.
Qed.

Lemma profile_loop_step_error dirs profile rest total covered coverfiles e :
  file_result dirs profile = Err e ->
  profile_loop dirs (profile :: rest) total covered coverfiles = Err e.
Proof.
  unfold file_result. simpl.
  destruct (findFile dirs (FileName profile)) as [f|e1]; simpl; [|congruence].
  destruct (test f) as [fe|e1]; simpl; [discriminate|congruence].
Qed.

(** A loop that ends well has worked out a result for every profile; the
    rows are appended in the order of the profiles and the two totals are
    the [int64] sums of the counts of the files. *)
Lemma profile_loop_ok dirs profiles total covered coverfiles total' covered' coverfiles' :
  Int64.in_range total -> Int64.in_range covered ->
  profile_loop dirs profiles total covered coverfiles
    = Ok (total', covered', coverfiles') ->
  exists rows,
    Forall2 (fun profile r => file_result dirs profile = Ok r) profiles rows
    /\ coverfiles' = coverfiles ++ map row_of rows
    /\ total' = fold_left Int64.add (map (fun r => r.2.2) rows) total
    /\ covered' = fold_left Int64.add (map (fun r => r.2.1) rows) covered.
Proof.
  revert total covered coverfiles.
  induction profiles as [|profile rest IH]; intros total covered coverfiles Ht Hc H.
  - simpl in H. injection H as <- <- <-. exists []. simpl.
    rewrite app_nil_r. repeat split. constructor.
  - destruct (file_result dirs profile) as [r|e] eqn:E.
    + rewrite (profile_loop_step _ _ _ _ _ _ r Ht Hc E) in H.
      apply IH in H as (rows & Hrows & -> & -> & ->); try apply add64_in_range.
      exists (r :: rows). simpl. rewrite <- app_assoc. repeat split.
      now constructor.
    + rewrite (profile_loop_step_error _ _ _ _ _ _ e E) in H. discriminate.
Qed.

(** A loop that fails returns the error of one of its profiles. *)
Lemma profile_loop_err dirs profiles total covered coverfiles e :
  Int64.in_range total -> Int64.in_range covered ->
  profile_loop dirs profiles total covered coverfiles = Err e ->
  exists profile, In profile profiles /\ file_result dirs profile = Err e.
Proof.
  revert total covered coverfiles.
  induction profiles as [|profile rest IH]; intros total covered coverfiles Ht Hc H.
  - discriminate.
  - destruct (file_result dirs profile) as [r|e1] eqn:E.
    + rewrite (profile_loop_step _ _ _ _ _ _ r Ht Hc E) in H.
      apply IH in H as (p & Hin & Hp); try apply add64_in_range.
      exists p. split; [now right | exact Hp].
    + rewrite (profile_loop_step_error _ _ _ _ _ _ e1 E) in H.
      injection H as ->. exists profile. split; [now left | exact E].
Qed.

Lemma zero_in_range : Int64.in_range 0.
Proof. rewrite in_range_bounds. lia. Qed.

(** The result of the part of [run] before the sort. *)
Lemma aggregate_ok file total covered coverfiles :
  aggregate file = Ok (total, covered, coverfiles) ->
  exists profiles dirs rows,
    ParseProfiles file = Ok profiles
    /\ findPkgs profiles = Ok dirs
    /\ Forall2 (fun profile r => file_result dirs profile = Ok r) profiles rows
    /\ coverfiles = map row_of rows
    /\ total = Int64.sum (map (fun r => r.2.2) rows)
    /\ covered = Int64.sum (map (fun r => r.2.1) rows).
Proof.
  unfold aggregate.
  destruct (ParseProfiles file) as [profiles|e] eqn:EP; simpl; [|discriminate].
  destruct (findPkgs profiles) as [dirs|e] eqn:ED; simpl; [|discriminate].
  intros H. apply profile_loop_ok in H as (rows & Hrows & -> & -> & ->);
    try apply zero_in_range.
  exists profiles, dirs, rows. repeat split; [exact ED | exact Hrows].
Qed.

(** *** The report *)


(** C6, amended. The process exits with status 0 in every case. When the
    run fails, whether for want of an argument, or because the profile
    cannot be read, [go list] fails, a package is not resolved or a source
    file does not parse, the only line printed is the error message; when
    it succeeds the full report is printed. *)
Theorem main_outcome (reverse : bool) (file : string) :
  exit_status (main reverse file) = 0
  /\ (file = ""%string ->
      stdout (main reverse file) = [ErrorLine "please provide a coverage file"])
  /\ (file <> ""%string ->
      match aggregate file with
      | Err e =>
          stdout (main reverse file) = [ErrorLine e]
          /\ (ParseProfiles file = Err e
              \/ exists profiles,
                   ParseProfiles file = Ok profiles
                   /\ (findPkgs profiles = Err e
                       \/ exists dirs profile,
                            findPkgs profiles = Ok dirs
                            /\ In profile profiles
                            /\ (findFile dirs (FileName profile) = Err e
                                \/ exists f,
                                     findFile dirs (FileName profile) = Ok f
                                     /\ ParseFile f = Err e)))
      | Ok (total, covered, coverfiles) =>
          stdout (main reverse file)
          = map (fun c => FileRow (getColor (percent c)) (filename c) (percent c))
                (sort_Slice coverfiles (less_percent reverse))
            ++ [Separator;
                TotalRow (getColor (percent_of covered total)) (percent_of covered total)]
      end).
Proof.
  split; [|split].
  - unfold main. destruct (Action reverse file) as [out [e|]]; reflexivity.
  - intros ->. reflexivity.
  - intros Hfile. unfold main, Action, run.
    destruct (String.eqb_spec file "") as [->|_]; [congruence|].
    destruct (aggregate file) as [[[total covered] coverfiles]|e] eqn:Hagg.
    + reflexivity.
    + split; [reflexivity|].
      unfold aggregate in Hagg.
      destruct (ParseProfiles file) as [profiles|e1] eqn:EP; simpl in Hagg;
        [|left; congruence].
      right. exists profiles. split; [reflexivity|].
      destruct (findPkgs profiles) as [dirs|e1] eqn:ED; simpl in Hagg;
        [|left; congruence].
      right. apply profile_loop_err in Hagg as (profile & Hin & Herr);
        try apply zero_in_range.
      exists dirs, profile. split; [reflexivity|]. split; [exact Hin|].
      unfold file_result in Herr.
      destruct (findFile dirs (FileName profile)) as [f|e1]; simpl in Herr;
        [|left; congruence].
      right. exists f. split; [reflexivity|].
      unfold test in Herr. destruct (ParseFile f) as [n|e1]; simpl in Herr;
        [discriminate|congruence].
Qed.





(** The loop over profiles that all have a result. *)
Lemma profile_loop_rows dirs profiles rows total covered coverfiles :
  Int64.in_range total -> Int64.in_range covered ->
  Forall2 (fun profile r => file_result dirs profile = Ok r) profiles rows ->
  profile_loop dirs profiles total covered coverfiles
  = Ok (fold_left Int64.add (map (fun r => r.2.2) rows) total,
        fold_left Int64.add (map (fun r => r.2.1) rows) covered,
        coverfiles ++ map row_of rows).
Proof.
  intros Ht Hc Hrows. revert total covered coverfiles Ht Hc.
  induction Hrows as [|profile r profiles rows Hr _ IH];
    intros total covered coverfiles Ht Hc.
  - simpl. now rewrite app_nil_r.
  - rewrite (profile_loop_step _ _ _ _ _ _ r Ht Hc Hr).
    rewrite IH by apply add64_in_range.
    simpl. now rewrite <- app_assoc.
Qed.

(** The expression of [run] is the formula of the specification. *)
Lemma percent_of_weighted (covered total : Z) :
  percent_of covered total = weighted_percent covered total.
Proof. reflexivity. Qed.

(** The total row in every case: the two sums are reduced to 64 bits. *)
Lemma run_total_row file reverse profiles dirs rows :
  ParseProfiles file = Ok profiles ->
  findPkgs profiles = Ok dirs ->
  Forall2 (fun profile r => file_result dirs profile = Ok r) profiles rows ->
  run file reverse
  = (map (fun c => FileRow (getColor (percent c)) (filename c) (percent c))
         (sort_Slice (map row_of rows) (less_percent reverse))
     ++ [Separator;
         TotalRow
           (getColor (weighted_percent (Int64.wrap (sum_covered rows))
                                       (Int64.wrap (sum_total rows))))
           (weighted_percent (Int64.wrap (sum_covered rows))
                             (Int64.wrap (sum_total rows)))],
     None).
Proof.
  intros HP HD Hrows. unfold run, aggregate. rewrite HP. simpl. rewrite HD. simpl.
  rewrite (profile_loop_rows dirs profiles rows 0 0 [] zero_in_range zero_in_range Hrows).
  rewrite !fold_left_add64 by apply zero_in_range.
  unfold render. rewrite percent_of_weighted. reflexivity.
Qed.

(** C8, amended. When the sum of the covered statements of all files and
    the sum of their total statements both fit in an [int64], the
    percentage of the total row is 100 times the first sum divided by the
    second, the sums being exact; it is not the mean of the percentages of
    the rows, as the sample run shows (7 of 11 statements, against a mean
    of 60%, 60% and 100%). *)
Theorem total_percent_weighted :
  (forall file reverse profiles dirs rows,
     ParseProfiles file = Ok profiles ->
     findPkgs profiles = Ok dirs ->
     Forall2 (fun profile r => file_result dirs profile = Ok r) profiles rows ->
     Int64.in_range (sum_covered rows) ->
     Int64.in_range (sum_total rows) ->
     run file reverse
     = (map (fun c => FileRow (getColor (percent c)) (filename c) (percent c))
            (sort_Slice (map row_of rows) (less_percent reverse))
        ++ [Separator;
            TotalRow
              (getColor (weighted_percent (sum_covered rows) (sum_total rows)))
              (weighted_percent (sum_covered rows) (sum_total rows))],
        None))
  /\ (exists rows,
        sample_aggregate "cover.out" = Ok (11, 7, rows)
        /\ weighted_percent 7 11 <> mean_percent rows).
Proof.
  split.
  - intros file reverse profiles dirs rows HP HD Hrows Hc Ht.
    rewrite (run_total_row file reverse profiles dirs rows HP HD Hrows).
    now rewrite (wrap_small _ Hc), (wrap_small _ Ht).
  - eexists. split; [vm_compute; reflexivity|]. vm_compute. discriminate.
Qed.

End RunFacts.

(** ** The sample run *)

Lemma sample_aggregate_cover :
  sample_aggregate "cover.out" = Ok (11, 7, [row_a; row_b; row_c]).
Proof. vm_compute. reflexivity. Qed.


(** The report of the sample run: 60%, 60% and 100%, and 7 statements
    covered out of 11 in total. *)
Example sample_report :
  sample_run "cover.out" false = (render [row_a; row_b; row_c] 7 11, None).
Proof. vm_compute. reflexivity. Qed.



(** C6, as stated, fails: a run on a profile that cannot be opened prints
    the error and the process exits with status 0. *)
Lemma failed_run_exits_zero :
  sample_ParseProfiles "nofile" = Err "open nofile: no such file or directory"
  /\ stdout (sample_main false "nofile")
     = [ErrorLine "open nofile: no such file or directory"]
  /\ exit_status (sample_main false "nofile") = 0
  /\ ~ exit_status (sample_main false "nofile") <> 0.
Proof. repeat split. intros H. apply H. reflexivity. Qed.

Lemma main_outcome_witness :
  exit_status (sample_main true "cover.out") = 0
  /\ stdout (sample_main true "cover.out") = render [row_c; row_b; row_a] 7 11.
Proof.
  split.
  - exact (proj1 (main_outcome sample_ParseProfiles sample_go_list sample_ParseFile
                    (fun s => s) (fun s => s) (fun d f => f) (fun _ => false)
                    sort_Slice_small true "cover.out")).
  - vm_compute. reflexivity.
Defined.


(** With one function fully covered and one without statements, the total
    of the file is 3 + 1 and the row shows 75%. *)
Example file_counts_mixed :
  file_counts (mkProfile "./a.go" [mkBlock 3 14 5 2 3 5])
    [mkExtent "A" 3 1 5 2; mkExtent "B" 7 1 9 2] = (3, 4)
  /\ percent_of 3 4 = Float64.of_int64 75.
Proof. split; vm_compute; reflexivity. Qed.


(** The constant and the formula on round numbers: 100 is
    7036874417766400 / 2^46, and 1 of 2, 3 of 4 and 5 of 5 statements are
    50%, 75% and 100%. *)
Example weighted_percent_values :
  Z.pos 7036874417766400 = 100 * 2 ^ 46
  /\ hundred = binary_normalize 53 1024 100 0 false
  /\ weighted_percent 1 2 = binary_normalize 53 1024 50 0 false
  /\ weighted_percent 3 4 = binary_normalize 53 1024 75 0 false
  /\ weighted_percent 5 5 = binary_normalize 53 1024 100 0 false.
Proof. repeat split; vm_compute; reflexivity. Qed.

(** C8, as stated, fails: the two sums are [int64] values and [+=] wraps
    around. With 2^62 statements covered out of 2^62 in [c.go] and 0 out
    of 2^62 in [d.go], the statements add up to 2^63, which an [int64]
    holds as -2^63: the total row shows -50%, in red, where 100 times the
    sum of the covered statements divided by the sum of the statements is
    50%. *)
Lemma total_percent_wraps :
  map wrap_file_result wrap_profiles
  = [Ok ("./c.go"%string, (2 ^ 62, 2 ^ 62)); Ok ("./d.go"%string, (0, 2 ^ 62))]
  /\ sum_covered [("./c.go"%string, (2 ^ 62, 2 ^ 62)); ("./d.go"%string, (0, 2 ^ 62))]
     = 2 ^ 62
  /\ sum_total [("./c.go"%string, (2 ^ 62, 2 ^ 62)); ("./d.go"%string, (0, 2 ^ 62))]
     = 2 ^ 63
  /\ wrap_run "cover.out" false
     = ([FileRow Red "./d.go" (S754_zero false);
         FileRow Green "./c.go" (binary_normalize 53 1024 100 0 false);
         Separator;
         TotalRow Red (binary_normalize 53 1024 (-50) 0 false)], None)
  /\ weighted_percent (2 ^ 62) (2 ^ 63) = binary_normalize 53 1024 50 0 false
  /\ binary_normalize 53 1024 (-50) 0 false <> binary_normalize 53 1024 50 0 false.
Proof.
  split; [vm_compute; reflexivity|]. split; [vm_compute; reflexivity|].
  split; [vm_compute; reflexivity|]. split; [vm_compute; reflexivity|].
  split; [vm_compute; reflexivity|]. vm_compute. discriminate.
Qed.

Lemma total_percent_weighted_witness :
  sample_ParseProfiles "cover.out" = Ok sample_profiles
  /\ Int64.in_range (sum_covered [("./a.go"%string, (3, 5)); ("./b.go"%string, (3, 5));
                                  ("./c.go"%string, (1, 1))])
  /\ Int64.in_range (sum_total [("./a.go"%string, (3, 5)); ("./b.go"%string, (3, 5));
                                ("./c.go"%string, (1, 1))])
  /\ sample_run "cover.out" false
     = ([FileRow Yellow "./a.go" (percent_of 3 5);
         FileRow Yellow "./b.go" (percent_of 3 5);
         FileRow Green "./c.go" (percent_of 1 1);
         Separator;
         TotalRow Yellow (weighted_percent 7 11)], None).
Proof.
  assert (Hc : Int64.in_range
                 (sum_covered [("./a.go"%string, (3, 5)); ("./b.go"%string, (3, 5));
                               ("./c.go"%string, (1, 1))]))
    by (rewrite in_range_bounds; vm_compute; split; discriminate).
  assert (Ht : Int64.in_range
                 (sum_total [("./a.go"%string, (3, 5)); ("./b.go"%string, (3, 5));
                             ("./c.go"%string, (1, 1))]))
    by (rewrite in_range_bounds; vm_compute; split; discriminate).
  split; [reflexivity|]. split; [exact Hc|]. split; [exact Ht|].
  unfold sample_run.
  rewrite (proj1 (total_percent_weighted sample_ParseProfiles sample_go_list
                    sample_ParseFile (fun s => s) (fun s => s) (fun d f => f)
                    (fun _ => false) sort_Slice_small)
             "cover.out" false sample_profiles ∅
             [("./a.go"%string, (3, 5)); ("./b.go"%string, (3, 5));
              ("./c.go"%string, (1, 1))]
             eq_refl eq_refl
             ltac:(repeat constructor) Hc Ht).
  vm_compute. reflexivity.
Defined.

(** * Further properties *)

(** ** The coverage scan *)

Lemma coverage_loop_stop (f : FuncExtent) (b : ProfileBlock)
    (pre rest : list ProfileBlock) (covered total : Z) :
  past_end f b = true ->
  coverage_loop f (pre ++ b :: rest) covered total = coverage_loop f pre covered total.
Proof.
  intros Hb. revert covered total.
  induction pre as [|a pre IH]; intros covered total; simpl.
  - now rewrite Hb.
  - destruct (past_end f a); [reflexivity|].
    destruct (before_start f a); [apply IH|].
    destruct (count_block a covered total) as [c t]. apply IH.
Qed.

(** X1. The scan never looks past a block that starts at or after the end
    of the function: whatever the order of the profile, the blocks that
    follow such a block do not count, even when they overlap the function. *)
Theorem coverage_ignores_blocks_after_stop
    (f : FuncExtent) (file : string) (b : ProfileBlock)
    (pre rest : list ProfileBlock) :
  past_end f b = true ->
  coverage f (mkProfile file (pre ++ b :: rest)) = coverage f (mkProfile file pre).
Proof.
  intros Hb. unfold coverage. simpl. now rewrite coverage_loop_stop.
Qed.

Lemma coverage_ignores_blocks_after_stop_witness :
  past_end sample_extent (mkBlock 9 14 11 2 6 1) = true
  /\ coverage sample_extent
       (mkProfile "./a.go" ([mkBlock 3 14 5 3 3 5]
                            ++ mkBlock 9 14 11 2 6 1 :: [mkBlock 5 3 7 2 2 0]))
     = coverage sample_extent (mkProfile "./a.go" [mkBlock 3 14 5 3 3 5]).
Proof.
  split; [reflexivity|].
  apply (coverage_ignores_blocks_after_stop sample_extent "./a.go"
           (mkBlock 9 14 11 2 6 1) [mkBlock 3 14 5 3 3 5] [mkBlock 5 3 7 2 2 0]).
  reflexivity.
Defined.

Lemma scan_all_loop_sums (f : FuncExtent) (bs : list ProfileBlock) (covered total : Z) :
  Int64.in_range covered -> Int64.in_range total ->
  scan_all_loop f bs covered total
  = (Int64.wrap (covered + hit_stmts f bs),
     Int64.wrap (total + overlapping_stmts f bs)).
Proof.
  unfold scan_all_loop. revert covered total.
  induction bs as [|b bs IH]; intros covered total Hc Ht;
    cbn [fold_left hit_stmts overlapping_stmts fold_right].
  - now rewrite !Z.add_0_r, !wrap_small.
  - destruct (overlaps f b); cbn [andb].
    + unfold count_block. cbn [fst snd]. unfold Int64.add.
      destruct (Count b >? 0); cbv beta iota.
      * rewrite IH by apply wrap_in_range. rewrite !wrap_add_l.
        unfold hit_stmts, overlapping_stmts. f_equal; f_equal; lia.
      * rewrite IH by (try apply wrap_in_range; assumption). rewrite !wrap_add_l.
        unfold hit_stmts, overlapping_stmts. f_equal; f_equal; lia.
    + apply IH; assumption.
Qed.

(** X2. On a profile in ascending order of start position, the covered
    count is the sum of the statement counts of the overlapping blocks that
    were hit, and the total is the sum of the statement counts of all
    overlapping blocks, both reduced to 64 bits, the total being replaced
    by 1 when it is 0. A block that was not hit ([Count <= 0]) adds to the
    total only. *)
Theorem coverage_sums (f : FuncExtent) (profile : Profile) :
  sorted_by_start (Blocks profile) = true ->
  coverage f profile
  = (Int64.wrap (hit_stmts f (Blocks profile)),
     if Int64.wrap (overlapping_stmts f (Blocks profile)) =? 0 then 1
     else Int64.wrap (overlapping_stmts f (Blocks profile))).
Proof.
  intros Hs. unfold coverage.
  rewrite coverage_loop_scan_all by exact Hs.
  rewrite scan_all_loop_sums by (rewrite in_range_bounds; lia).
  reflexivity.
Qed.

Lemma coverage_sums_witness :
  sorted_by_start (Blocks sample_profile) = true
  /\ coverage sample_extent sample_profile
     = (Int64.wrap (hit_stmts sample_extent (Blocks sample_profile)),
        if Int64.wrap (overlapping_stmts sample_extent (Blocks sample_profile)) =? 0
        then 1
        else Int64.wrap (overlapping_stmts sample_extent (Blocks sample_profile)))
  /\ hit_stmts sample_extent (Blocks sample_profile) = 3
  /\ overlapping_stmts sample_extent (Blocks sample_profile) = 5.
Proof.
  split; [reflexivity|].
  split; [apply (coverage_sums sample_extent sample_profile); reflexivity|].
  split; reflexivity.
Defined.

(** ** Colours *)

Lemma getColor_default_nan (p : Float64.t) :
  getColor p = Default <-> Float64.is_nan p = true.
Proof.
  split.
  - intros H. destruct (Float64.is_nan p) eqn:Hn; [reflexivity|].
    exfalso. unfold getColor in H.
    destruct (Float64.leb p Float64.c30) eqn:E30; [discriminate|].
    apply leb_total in E30; [|exact Hn|reflexivity].
    change (Float64.gtb p Float64.c30) with (Float64.ltb Float64.c30 p) in H.
    change (Float64.gtb p Float64.c70) with (Float64.ltb Float64.c70 p) in H.
    rewrite E30 in H. cbn [andb] in H.
    destruct (Float64.leb p Float64.c70) eqn:E70; [discriminate|].
    apply leb_total in E70; [|exact Hn|reflexivity].
    rewrite E70 in H. discriminate.
  - intros H. destruct p; try discriminate. reflexivity.
Qed.

(** X3. The default colour is returned for a NaN and for nothing else:
    every percentage that is a number, infinite ones included, is red,
    yellow or green. *)
Theorem getColor_default_iff_nan (p : Float64.t) :
  (getColor p = Default <-> Float64.is_nan p = true)
  /\ (Float64.is_nan p = false ->
      getColor p = Red \/ getColor p = Yellow \/ getColor p = Green).
Proof.
  split; [apply getColor_default_nan|].
  intros Hn. pose proof (getColor_default_nan p) as H.
  destruct (getColor p); auto. rewrite Hn in H. destruct H as [H _].
  discriminate (H eq_refl).
Qed.

(** ** Package resolution *)

Section ResolutionFacts.
Variable go_list : list string -> Result (list (Result Pkg)).
Variable path_Dir : string -> string.
Variable path_Base : string -> string.
Variable filepath_Join : string -> string -> string.
Variable filepath_IsAbs : string -> bool.

Local Abbreviation relative_or_absolute := (relative_or_absolute filepath_IsAbs).
Local Abbreviation collect_pkgs := (collect_pkgs path_Dir filepath_IsAbs).
Local Abbreviation findPkgs := (findPkgs go_list path_Dir filepath_IsAbs).
Local Abbreviation findFile :=
  (findFile path_Dir path_Base filepath_Join filepath_IsAbs).

(** X4. [findFile] succeeds in two cases only: the name is relative or
    absolute and is returned as it is, whatever the map holds; or the map
    holds for its directory a package with a non-empty [Dir], and the
    result joins this [Dir] with the base name, whether or not the package
    also carries an error. In every other case (no entry, a nil entry, an
    empty [Dir]) it fails, with the error of the package when there is one
    and with the "did not find package" message otherwise. *)
Theorem findFile_cases (pkgs : gmap string (option Pkg)) (file : string) :
  (forall f, findFile pkgs file = Ok f <->
     (relative_or_absolute file = true /\ f = file)
     \/ (relative_or_absolute file = false
         /\ exists pkg, pkgs !! path_Dir file = Some (Some pkg)
              /\ Dir pkg <> ""%string
              /\ f = filepath_Join (Dir pkg) (path_Base file)))
  /\ (forall e, findFile pkgs file = Err e <->
        relative_or_absolute file = false
        /\ ((exists pkg, pkgs !! path_Dir file = Some (Some pkg)
               /\ Dir pkg = ""%string /\ Error pkg = Some e)
            \/ (e = not_found file
                /\ forall pkg, pkgs !! path_Dir file = Some (Some pkg) ->
                     Dir pkg = ""%string /\ Error pkg = None))).
Proof.
  unfold findFile.
  destruct (relative_or_absolute file) eqn:Hloc.
  - split.
    + intros f. split.
      * intros [= <-]. now left.
      * intros [[_ ->]|[H _]]; [reflexivity|discriminate].
    + intros e. split; [discriminate|]. intros [H _]. discriminate.
  - destruct (pkgs !! path_Dir file) as [[pkg|]|] eqn:Hlook.
    + destruct (String.eqb_spec (Dir pkg) "") as [Hd|Hd]; simpl.
      * destruct (Error pkg) as [err|] eqn:Herr.
        -- split.
           ++ intros f. split; [discriminate|].
              intros [[H _]|[_ (pkg' & [= <-] & Hne & _)]]; [discriminate|congruence].
           ++ intros e. split.
              ** intros [= <-]. split; [reflexivity|]. left. now exists pkg.
              ** intros [_ [(pkg' & [= <-] & _ & He)|[_ H]]]; [congruence|].
                 destruct (H pkg eq_refl) as [_ H']. congruence.
        -- split.
           ++ intros f. split; [discriminate|].
              intros [[H _]|[_ (pkg' & [= <-] & Hne & _)]]; [discriminate|congruence].
           ++ intros e. split.
              ** intros [= <-]. split; [reflexivity|]. right.
                 split; [reflexivity|]. intros pkg' [= <-]. now split.
              ** intros [_ [(pkg' & [= <-] & _ & He)|[-> _]]]; [congruence|reflexivity].
      * split.
        -- intros f. split.
           ++ intros [= <-]. right. split; [reflexivity|]. now exists pkg.
           ++ intros [[H _]|[_ (pkg' & [= <-] & _ & ->)]]; [discriminate|reflexivity].
        -- intros e. split; [discriminate|].
           intros [_ [(pkg' & [= <-] & Hd' & _)|[_ H]]]; [congruence|].
           destruct (H pkg eq_refl) as [Hd' _]. congruence.
    + split.
      * intros f. split; [discriminate|].
        intros [[H _]|[_ (pkg' & H & _)]]; discriminate.
      * intros e. split.
        -- intros [= <-]. split; [reflexivity|]. right. split; [reflexivity|].
           intros pkg' H. discriminate.
        -- intros [_ [(pkg' & H & _)|[-> _]]]; [discriminate|reflexivity].
    + split.
      * intros f. split; [discriminate|].
        intros [[H _]|[_ (pkg' & H & _)]]; discriminate.
      * intros e. split.
        -- intros [= <-]. split; [reflexivity|]. right. split; [reflexivity|].
           intros pkg' H. discriminate.
        -- intros [_ [(pkg' & H & _)|[-> _]]]; [discriminate|reflexivity].
Qed.

(** The invariant of the first loop of [findPkgs]: the list holds no
    package twice, and the map holds a nil entry for exactly the packages
    of the list. *)
Lemma collect_pkgs_inv (profiles : list Profile)
    (pkgs : gmap string (option Pkg)) (l : list string) :
  NoDup l ->
  (forall k, pkgs !! k = if decide (k ∈ l) then Some None else None) ->
  NoDup (collect_pkgs profiles pkgs l).2
  /\ (forall k, (collect_pkgs profiles pkgs l).1 !! k
                = if decide (k ∈ (collect_pkgs profiles pkgs l).2)
                  then Some None else None)
  /\ (forall k, k ∈ (collect_pkgs profiles pkgs l).2 <->
        k ∈ l
        \/ exists profile, profile ∈ profiles
             /\ relative_or_absolute (FileName profile) = false
             /\ path_Dir (FileName profile) = k).
Proof.
  revert pkgs l. induction profiles as [|profile rest IH]; intros pkgs l Hnd Hmap.
  - simpl. split; [exact Hnd|]. split; [exact Hmap|].
    intros k. split; [now left|]. intros [H|(p & Hp & _)]; [exact H|].
    apply elem_of_nil in Hp. contradiction.
  - simpl. destruct (relative_or_absolute (FileName profile)) eqn:Hloc.
    + destruct (IH pkgs l Hnd Hmap) as (H1 & H2 & H3).
      split; [exact H1|]. split; [exact H2|].
      intros k. rewrite H3. split.
      * intros [H|(p & Hp & Hl & Hk)]; [now left|].
        right. exists p. split; [now apply elem_of_cons; right|]. now split.
      * intros [H|(p & Hp & Hl & Hk)]; [now left|].
        apply elem_of_cons in Hp as [->|Hp]; [congruence|].
        right. exists p. now repeat split.
    + pose proof (Hmap (path_Dir (FileName profile))) as Hk0.
      destruct (decide (path_Dir (FileName profile) ∈ l)) as [Hin|Hnin].
      * rewrite Hk0.
        destruct (IH pkgs l Hnd Hmap) as (H1 & H2 & H3).
        split; [exact H1|]. split; [exact H2|].
        intros k. rewrite H3. split.
        -- intros [H|(p & Hp & Hl & Hk)]; [now left|].
           right. exists p. split; [now apply elem_of_cons; right|]. now split.
        -- intros [H|(p & Hp & Hl & Hk)]; [now left|].
           apply elem_of_cons in Hp as [->|Hp]; [left; congruence|].
           right. exists p. now repeat split.
      * rewrite Hk0.
        assert (Hnd' : NoDup (l ++ [path_Dir (FileName profile)])).
        { apply NoDup_app. split; [exact Hnd|]. split.
          - intros x Hx Hx'. apply list_elem_of_singleton in Hx'. congruence.
          - apply NoDup_singleton. }
        assert (Hmap' : forall k,
                  <[path_Dir (FileName profile) := None]> pkgs !! k
                  = if decide (k ∈ l ++ [path_Dir (FileName profile)])
                    then Some None else None).
        { intros k. destruct (decide (k = path_Dir (FileName profile))) as [->|Hne].
          - rewrite lookup_insert_eq.
            destruct (decide (path_Dir (FileName profile)
                              ∈ l ++ [path_Dir (FileName profile)])) as [_|Hn];
              [reflexivity|].
            exfalso. apply Hn, elem_of_app. right. now apply list_elem_of_singleton.
          - rewrite lookup_insert_ne by congruence. rewrite Hmap.
            destruct (decide (k ∈ l)) as [Hl|Hl],
                     (decide (k ∈ l ++ [path_Dir (FileName profile)])) as [Hl'|Hl'];
              try reflexivity.
            + exfalso. apply Hl', elem_of_app. now left.
            + exfalso. apply elem_of_app in Hl' as [Hl'|Hl']; [contradiction|].
              apply list_elem_of_singleton in Hl'. contradiction. }
        destruct (IH _ _ Hnd' Hmap') as (H1 & H2 & H3).
        split; [exact H1|]. split; [exact H2|].
        intros k. rewrite H3. split.
        -- intros [H|(p & Hp & Hl & Hk)].
           ++ apply elem_of_app in H as [H|H]; [now left|].
              apply list_elem_of_singleton in H. right. exists profile.
              split; [now apply elem_of_cons; left|]. now split.
           ++ right. exists p. split; [now apply elem_of_cons; right|]. now split.
        -- intros [H|(p & Hp & Hl & Hk)].
           ++ left. apply elem_of_app. now left.
           ++ apply elem_of_cons in Hp as [->|Hp].
              ** left. apply elem_of_app. right. now apply list_elem_of_singleton.
              ** right. exists p. now repeat split.
Qed.

(** X5. The first loop of [findPkgs] lists every package to resolve once:
    the list handed to [go list] has no duplicates, it holds exactly the
    directories of the profiled files whose names are neither relative nor
    absolute, and the map holds a nil entry for each of them and nothing
    else. *)
Theorem findPkgs_lists_each_package_once (profiles : list Profile) :
  NoDup (collect_pkgs profiles ∅ []).2
  /\ (forall k, In k (collect_pkgs profiles ∅ []).2 <->
        exists profile, In profile profiles
          /\ relative_or_absolute (FileName profile) = false
          /\ path_Dir (FileName profile) = k)
  /\ (forall k, (collect_pkgs profiles ∅ []).1 !! k
                = if decide (k ∈ (collect_pkgs profiles ∅ []).2)
                  then Some None else None).
Proof.
  destruct (collect_pkgs_inv profiles ∅ [] NoDup_nil_2) as (H1 & H2 & H3).
  { intros k. rewrite lookup_empty. destruct (decide (k ∈ [])) as [H|_]; [|reflexivity].
    apply elem_of_nil in H. contradiction. }
  split; [exact H1|]. split; [|exact H2].
  intros k. rewrite <- list_elem_of_In, H3. split.
  - intros [H|(p & Hp & Hl & Hk)]; [apply elem_of_nil in H; contradiction|].
    exists p. rewrite <- list_elem_of_In. now repeat split.
  - intros (p & Hp & Hl & Hk). right. exists p.
    rewrite list_elem_of_In. now repeat split.
Qed.

Lemma collect_pkgs_local (profiles : list Profile)
    (pkgs : gmap string (option Pkg)) (l : list string) :
  Forall (fun profile => relative_or_absolute (FileName profile) = true) profiles ->
  collect_pkgs profiles pkgs l = (pkgs, l).
Proof.
  induction 1 as [|profile rest Hp _ IH]; simpl; [reflexivity|]. now rewrite Hp.
Qed.

(** X6. When every profiled file has a relative or an absolute name,
    [findPkgs] returns the empty map without running [go list]: the result
    does not depend on what the tool would answer. *)
Theorem findPkgs_local_only (profiles : list Profile) :
  Forall (fun profile => relative_or_absolute (FileName profile) = true) profiles ->
  findPkgs profiles = Ok ∅.
Proof.
  intros H. unfold findPkgs. now rewrite (collect_pkgs_local profiles ∅ [] H).
Qed.

Lemma collect_pkgs_nonempty (profiles : list Profile) (profile : Profile) :
  In profile profiles ->
  relative_or_absolute (FileName profile) = false ->
  path_Dir (FileName profile) ∈ (collect_pkgs profiles ∅ []).2.
Proof.
  intros Hin Hloc.
  destruct (collect_pkgs_inv profiles ∅ [] NoDup_nil_2) as (_ & _ & H3).
  { intros k. rewrite lookup_empty. destruct (decide (k ∈ [])) as [H|_]; [|reflexivity].
    apply elem_of_nil in H. contradiction. }
  apply H3. right. exists profile. rewrite list_elem_of_In. now repeat split.
Qed.

Lemma findPkgs_unfold (profiles : list Profile) :
  (collect_pkgs profiles ∅ []).2 <> [] ->
  findPkgs profiles
  = match go_list (collect_pkgs profiles ∅ []).2 with
    | Err e => Err ("cannot run go list: " ++ e)%string
    | Ok stream => decode_pkgs stream (collect_pkgs profiles ∅ []).1
    end.
Proof.
  unfold findPkgs. destruct (collect_pkgs profiles ∅ []) as [pkgs l]. simpl.
  destruct l; [congruence|reflexivity].
Qed.

Lemma decode_pkgs_error (pre rest : list (Result Pkg)) (e : error)
    (pkgs : gmap string (option Pkg)) :
  forallb is_Ok pre = true ->
  decode_pkgs (pre ++ Err e :: rest) pkgs = Err ("decoding go list json: " ++ e)%string.
Proof.
  revert pkgs. induction pre as [|[pkg|e1] pre IH]; intros pkgs H; simpl in *.
  - reflexivity.
  - apply IH, H.
  - discriminate.
Qed.

(** X7. When some profiled file needs a package to be resolved, a failure
    of [go list] makes [findPkgs] fail with "cannot run go list: " and the
    tool's error, and a record that does not decode makes it fail with
    "decoding go list json: " and the decoder's error, whatever was decoded
    before it and whatever follows: no map is returned. *)
Theorem findPkgs_tool_errors (profiles : list Profile) (profile : Profile) :
  In profile profiles ->
  relative_or_absolute (FileName profile) = false ->
  (forall e, go_list (collect_pkgs profiles ∅ []).2 = Err e ->
     findPkgs profiles = Err ("cannot run go list: " ++ e)%string)
  /\ (forall pre e rest,
        go_list (collect_pkgs profiles ∅ []).2 = Ok (pre ++ Err e :: rest) ->
        forallb is_Ok pre = true ->
        findPkgs profiles = Err ("decoding go list json: " ++ e)%string).
Proof.
  intros Hin Hloc.
  assert (Hne : (collect_pkgs profiles ∅ []).2 <> []).
  { intros E. pose proof (collect_pkgs_nonempty profiles profile Hin Hloc) as H.
    rewrite E in H. apply elem_of_nil in H. contradiction. }
  split.
  - intros e He. now rewrite (findPkgs_unfold profiles Hne), He.
  - intros pre e rest He Hpre. rewrite (findPkgs_unfold profiles Hne), He.
    now apply decode_pkgs_error.
Qed.

(** After the decoding loop, the entry of a path is the last record decoded
    with it, or what the map held before. *)
Lemma decode_pkgs_lookup (stream : list (Result Pkg))
    (pkgs m : gmap string (option Pkg)) (k : string) :
  decode_pkgs stream pkgs = Ok m ->
  m !! k = match listed k stream with
           | Some pkg => Some (Some pkg)
           | None => pkgs !! k
           end.
Proof.
  revert pkgs. induction stream as [|[pkg|e] rest IH]; intros pkgs H; simpl in *.
  - now injection H as ->.
  - rewrite (IH _ H). destruct (listed k rest); [reflexivity|].
    destruct (String.eqb_spec (ImportPath pkg) k) as [->|Hne].
    + now rewrite lookup_insert_eq.
    + now rewrite lookup_insert_ne.
  - discriminate.
Qed.

(** X8. Resolution end to end. When [findPkgs] succeeds, a profiled file
    whose name is neither relative nor absolute is resolved by the last
    record that [go list] returned for its directory: to the record's [Dir]
    joined with the base name when [Dir] is not empty, to the record's
    error otherwise; a package that [go list] did not report at all is
    answered with "did not find package". *)
Theorem findPkgs_then_findFile (profiles : list Profile)
    (dirs : gmap string (option Pkg)) (profile : Profile) :
  findPkgs profiles = Ok dirs ->
  In profile profiles ->
  relative_or_absolute (FileName profile) = false ->
  exists stream,
    go_list (collect_pkgs profiles ∅ []).2 = Ok stream
    /\ dirs !! path_Dir (FileName profile)
       = Some (listed (path_Dir (FileName profile)) stream)
    /\ findFile dirs (FileName profile)
       = match listed (path_Dir (FileName profile)) stream with
         | Some pkg =>
             if negb (String.eqb (Dir pkg) "")
             then Ok (filepath_Join (Dir pkg) (path_Base (FileName profile)))
             else match Error pkg with
                  | Some err => Err err
                  | None => Err (not_found (FileName profile))
                  end
         | None => Err (not_found (FileName profile))
         end.
Proof.
  intros Hok Hin Hloc.
  pose proof (collect_pkgs_nonempty profiles profile Hin Hloc) as Hk.
  assert (Hne : (collect_pkgs profiles ∅ []).2 <> []).
  { intros E. rewrite E in Hk. apply elem_of_nil in Hk. contradiction. }
  rewrite (findPkgs_unfold profiles Hne) in Hok.
  destruct (go_list (collect_pkgs profiles ∅ []).2) as [stream|e]; [|discriminate].
  exists stream. split; [reflexivity|].
  assert (Hlook : dirs !! path_Dir (FileName profile)
                  = Some (listed (path_Dir (FileName profile)) stream)).
  { rewrite (decode_pkgs_lookup _ _ _ _ Hok).
    destruct (listed (path_Dir (FileName profile)) stream); [reflexivity|].
    destruct (collect_pkgs_inv profiles ∅ [] NoDup_nil_2) as (_ & H2 & _).
    { intros k. rewrite lookup_empty.
      destruct (decide (k ∈ [])) as [H|_]; [|reflexivity].
      apply elem_of_nil in H. contradiction. }
    rewrite H2. destruct (decide _) as [_|Hn]; [reflexivity|contradiction]. }
  split; [exact Hlook|].
  unfold findFile. rewrite Hloc, Hlook.
  destruct (listed (path_Dir (FileName profile)) stream); reflexivity.
Qed.

End ResolutionFacts.

Lemma findPkgs_local_only_witness :
  Forall (fun profile => relative_or_absolute (fun _ => false) (FileName profile) = true)
         sample_profiles
  /\ findPkgs sample_go_list (fun s => s) (fun _ => false) sample_profiles = Ok ∅.
Proof.
  assert (H : Forall (fun profile =>
                        relative_or_absolute (fun _ => false) (FileName profile) = true)
                sample_profiles) by (repeat constructor).
  split; [exact H|].
  exact (findPkgs_local_only sample_go_list (fun s => s) (fun _ => false)
           sample_profiles H).
Defined.

Lemma findPkgs_tool_errors_witness :
  In (mkProfile "example.com/p/a.go" two_blocks) pkg_profiles
  /\ relative_or_absolute (fun _ => false) "example.com/p/a.go" = false
  /\ findPkgs sample_go_list pkg_Dir (fun _ => false) pkg_profiles
     = Err "cannot run go list: exit status 1".
Proof.
  assert (Hin : In (mkProfile "example.com/p/a.go" two_blocks) pkg_profiles)
    by (left; reflexivity).
  split; [exact Hin|]. split; [reflexivity|].
  exact (proj1 (findPkgs_tool_errors sample_go_list pkg_Dir (fun _ => false)
                  pkg_profiles (mkProfile "example.com/p/a.go" two_blocks)
                  Hin eq_refl) "exit status 1"%string eq_refl).
Defined.

Lemma findPkgs_then_findFile_witness :
  exists dirs,
    findPkgs pkg_go_list pkg_Dir (fun _ => false) pkg_profiles = Ok dirs
    /\ In (mkProfile "example.com/p/a.go" two_blocks) pkg_profiles
    /\ relative_or_absolute (fun _ => false) "example.com/p/a.go" = false
    /\ findFile pkg_Dir pkg_Base pkg_Join (fun _ => false) dirs "example.com/p/a.go"
       = Ok "/src/p/a.go"%string.
Proof.
  destruct (findPkgs pkg_go_list pkg_Dir (fun _ => false) pkg_profiles)
    as [dirs|e] eqn:E; [|vm_compute in E; discriminate].
  exists dirs.
  assert (Hin : In (mkProfile "example.com/p/a.go" two_blocks) pkg_profiles)
    by (left; reflexivity).
  split; [reflexivity|]. split; [exact Hin|]. split; [reflexivity|].
  destruct (findPkgs_then_findFile pkg_go_list pkg_Dir pkg_Base pkg_Join
              (fun _ => false) pkg_profiles dirs
              (mkProfile "example.com/p/a.go" two_blocks) E Hin eq_refl)
    as (stream & Hs & _ & Hf).
  vm_compute in Hs. injection Hs as <-. exact Hf.
Defined.

(** ** Ascending and descending insertion *)

Section InsertionMirror.
Context {A : Type} (lt ge : A -> A -> bool).
Variable ok : A -> Prop.
Variable R : A -> A -> Prop.
Hypothesis ge_lt : forall x y, ok x -> ok y -> ge x y = negb (lt x y).
Hypothesis lt_move : forall x y, ok x -> ok y -> lt x y = true -> R y x.
Hypothesis lt_stop : forall x y, ok x -> ok y -> lt x y = false -> R x y.
Hypothesis R_trans : forall x y z, R x y -> R y z -> R x z.
Hypothesis lt_below : forall x y z,
  ok x -> ok y -> ok z -> lt x y = false -> R y z -> lt x z = false.





End InsertionMirror.



(** ** The run as a whole *)

Section ReportFacts.
Variable ParseProfiles : string -> Result (list Profile).
Variable go_list : list string -> Result (list (Result Pkg)).
Variable ParseFile : string -> Result Node.
Variable path_Dir : string -> string.
Variable path_Base : string -> string.
Variable filepath_Join : string -> string -> string.
Variable filepath_IsAbs : string -> bool.
Variable sort_Slice :
  list coveredFile -> (list coveredFile -> nat -> nat -> bool) -> list coveredFile.

Local Abbreviation findFile := (findFile path_Dir path_Base filepath_Join filepath_IsAbs).
Local Abbreviation findPkgs := (findPkgs go_list path_Dir filepath_IsAbs).
Local Abbreviation file_result :=
  (file_result ParseFile path_Dir path_Base filepath_Join filepath_IsAbs).
Local Abbreviation profile_loop :=
  (profile_loop ParseFile path_Dir path_Base filepath_Join filepath_IsAbs).
Local Abbreviation aggregate :=
  (aggregate ParseProfiles go_list ParseFile path_Dir path_Base filepath_Join
     filepath_IsAbs).
Local Abbreviation run :=
  (run ParseProfiles go_list ParseFile path_Dir path_Base filepath_Join
     filepath_IsAbs sort_Slice).

Lemma profile_loop_first_error dirs pre profile rest total covered coverfiles e :
  Int64.in_range total -> Int64.in_range covered ->
  forallb (fun q => is_Ok (file_result dirs q)) pre = true ->
  file_result dirs profile = Err e ->
  profile_loop dirs (pre ++ profile :: rest) total covered coverfiles = Err e.
Proof.
  intros Ht Hc Hpre Herr. revert total covered coverfiles Ht Hc.
  induction pre as [|q pre IH]; intros total covered coverfiles Ht Hc.
  - exact (profile_loop_step_error ParseFile path_Dir path_Base filepath_Join
             filepath_IsAbs dirs profile rest total covered coverfiles e Herr).
  - simpl in Hpre. apply andb_prop in Hpre as [Hq Hpre].
    destruct (file_result dirs q) as [r|e1] eqn:E; [|discriminate].
    change ((q :: pre) ++ profile :: rest) with (q :: (pre ++ profile :: rest)).
    rewrite (profile_loop_step ParseFile path_Dir path_Base filepath_Join
               filepath_IsAbs dirs q _ total covered coverfiles r Ht Hc E).
    apply IH; [exact Hpre | apply add64_in_range | apply add64_in_range].
Qed.

(** X9. The run stops at the first profiled file that cannot be resolved
    or parsed: its error is the one returned, nothing is printed, not even
    the rows of the files before it, and the files after it play no part. *)
Theorem run_stops_at_first_error (file : string) (reverse : bool)
    (dirs : gmap string (option Pkg))
    (pre rest : list Profile) (profile : Profile) (e : error) :
  ParseProfiles file = Ok (pre ++ profile :: rest) ->
  findPkgs (pre ++ profile :: rest) = Ok dirs ->
  forallb (fun q => is_Ok (file_result dirs q)) pre = true ->
  file_result dirs profile = Err e ->
  run file reverse = ([], Some e).
Proof.
  intros HP HD Hpre Herr. unfold run, aggregate. rewrite HP. simpl. rewrite HD. simpl.
  now rewrite (profile_loop_first_error dirs pre profile rest 0 0 [] e
                 zero_in_range zero_in_range Hpre Herr).
Qed.

(** X10. Before the sort the report holds one row per profile, in the
    order of the profiles, and the name of a row is the resolved name of
    the file of its profile. *)
Theorem aggregate_one_row_per_profile (file : string)
    (total covered : Z) (coverfiles : list coveredFile) :
  aggregate file = Ok (total, covered, coverfiles) ->
  exists profiles dirs,
    ParseProfiles file = Ok profiles
    /\ findPkgs profiles = Ok dirs
    /\ length coverfiles = length profiles
    /\ Forall2 (fun profile c => findFile dirs (FileName profile) = Ok (filename c))
               profiles coverfiles.
Proof.
  intros H.
  destruct (aggregate_ok ParseProfiles go_list ParseFile path_Dir path_Base
              filepath_Join filepath_IsAbs file total covered coverfiles H)
    as (profiles & dirs & rows & HP & HD & Hrows & -> & _ & _).
  exists profiles, dirs. split; [exact HP|]. split; [exact HD|].
  clear H HP HD. induction Hrows as [|profile r profiles rows Hr _ [IH1 IH2]].
  - split; [reflexivity | constructor].
  - split; [simpl; now rewrite IH1|].
    constructor; [|exact IH2].
    unfold file_result in Hr.
    destruct (findFile dirs (FileName profile)) as [f|e]; simpl in Hr; [|discriminate].
    destruct (test ParseFile f) as [fe|e]; simpl in Hr; [|discriminate].
    injection Hr as <-. reflexivity.
Qed.

(** X11. A profile that names no file is not an error: the run prints no
    row, the separator, and a total of 100 * 0 / 0, which is NaN and has
    the default colour. *)
Theorem run_empty_profile (file : string) (reverse : bool) :
  ParseProfiles file = Ok [] ->
  sort_Slice [] (less_percent reverse) = [] ->
  run file reverse = ([Separator; TotalRow Default S754_nan], None).
Proof.
  intros HP Hs. unfold run, aggregate. rewrite HP. simpl.
  rewrite Hs. reflexivity.
Qed.


End ReportFacts.

Lemma run_stops_at_first_error_witness :
  broken_ParseProfiles "cover.out"
    = Ok ([mkProfile "./a.go" two_blocks]
          ++ mkProfile "./missing.go" [] :: [mkProfile "./c.go" [mkBlock 3 14 5 2 1 1]])
  /\ file_result sample_ParseFile (fun s => s) (fun s => s) (fun d f => f)
       (fun _ => false) ∅ (mkProfile "./missing.go" [])
     = Err "./missing.go:1:1: expected 'package', found 'EOF'"
  /\ run broken_ParseProfiles sample_go_list sample_ParseFile
       (fun s => s) (fun s => s) (fun d f => f) (fun _ => false)
       sort_Slice_small "cover.out" false
     = ([], Some "./missing.go:1:1: expected 'package', found 'EOF'"%string).
Proof.
  split; [reflexivity|]. split; [reflexivity|].
  apply (run_stops_at_first_error broken_ParseProfiles sample_go_list sample_ParseFile
           (fun s => s) (fun s => s) (fun d f => f) (fun _ => false)
           sort_Slice_small "cover.out" false ∅
           [mkProfile "./a.go" two_blocks] [mkProfile "./c.go" [mkBlock 3 14 5 2 1 1]]
           (mkProfile "./missing.go" [])); reflexivity.
Defined.

Lemma aggregate_one_row_per_profile_witness :
  sample_aggregate "cover.out" = Ok (11, 7, [row_a; row_b; row_c])
  /\ exists profiles, sample_ParseProfiles "cover.out" = Ok profiles
       /\ length [row_a; row_b; row_c] = length profiles.
Proof.
  split; [exact sample_aggregate_cover|].
  destruct (aggregate_one_row_per_profile sample_ParseProfiles sample_go_list
              sample_ParseFile (fun s => s) (fun s => s) (fun d f => f)
              (fun _ => false) "cover.out" 11 7 [row_a; row_b; row_c]
              sample_aggregate_cover)
    as (profiles & dirs & HP & _ & Hlen & _).
  exists profiles. split; [exact HP | exact Hlen].
Defined.

Lemma run_empty_profile_witness :
  no_ParseProfiles "cover.out" = Ok []
  /\ sort_Slice_small [] (less_percent false) = []
  /\ run no_ParseProfiles sample_go_list sample_ParseFile
       (fun s => s) (fun s => s) (fun d f => f) (fun _ => false)
       sort_Slice_small "cover.out" false
     = ([Separator; TotalRow Default S754_nan], None).
Proof.
  split; [reflexivity|]. split; [reflexivity|].
  apply (run_empty_profile no_ParseProfiles sample_go_list sample_ParseFile
           (fun s => s) (fun s => s) (fun d f => f) (fun _ => false)
           sort_Slice_small "cover.out" false); reflexivity.
Defined.


(** ** When a percentage is NaN *)

Lemma digits2_pos_upper (p : positive) : Zpos p < 2 ^ Zpos (digits2_pos p).
Proof.
  induction p as [p IH|p IH|]; simpl digits2_pos.
  - rewrite Pos2Z.inj_succ, Z.pow_succ_r by lia. lia.
  - rewrite Pos2Z.inj_succ, Z.pow_succ_r by lia. lia.
  - simpl. lia.
Qed.

Lemma digits2_pos_le (p : positive) (d : Z) :
  0 <= d -> Zpos p < 2 ^ d -> Zpos (digits2_pos p) <= d.
Proof.
  intros Hd Hp. pose proof (digits2_pos_lower p) as Hl.
  assert (H : 2 ^ (Zpos (digits2_pos p) - 1) < 2 ^ d) by lia.
  apply Z.pow_lt_mono_r_iff in H; lia.
Qed.

Lemma shr_fexp_nonneg (m e : Z) (l : location) :
  0 <= m -> 0 <= shr_m (fst (shr_fexp Float64.prec Float64.emax m e l)).
Proof.
  intros Hm. unfold shr_fexp, shr.
  destruct (fexp Float64.prec Float64.emax (Zdigits2 m + e) - e) as [|k|k];
    simpl fst; rewrite ?shr_record_of_loc_m; try exact Hm.
  rewrite iter_shr_1_m by (rewrite shr_record_of_loc_m; exact Hm).
  rewrite shr_record_of_loc_m. apply Z.div_pos; [exact Hm|].
  apply Z.pow_pos_nonneg; lia.
Qed.

Lemma round_nearest_even_bounds (m : Z) (l : location) :
  m <= round_nearest_even m l <= m + 1.
Proof. destruct l as [|[]]; simpl; try lia. destruct (Z.even m); lia. Qed.

(** Rounding a mantissa that is not negative never gives a NaN. *)
Lemma binary_round_aux_not_nan (s : bool) (m e : Z) (l : location) :
  0 <= m ->
  Float64.is_nan (binary_round_aux Float64.prec Float64.emax s m e l) = false.
Proof.
  intros Hm. unfold binary_round_aux.
  pose proof (shr_fexp_nonneg m e l Hm) as H1.
  destruct (shr_fexp Float64.prec Float64.emax m e l) as [mrs1 e1]. simpl fst in H1.
  pose proof (round_nearest_even_bounds (shr_m mrs1) (loc_of_shr_record mrs1)) as Hr.
  pose proof (shr_fexp_nonneg (round_nearest_even (shr_m mrs1) (loc_of_shr_record mrs1))
                e1 loc_Exact ltac:(lia)) as H2.
  destruct (shr_fexp Float64.prec Float64.emax
              (round_nearest_even (shr_m mrs1) (loc_of_shr_record mrs1)) e1 loc_Exact)
    as [mrs2 e2]. simpl fst in H2.
  destruct (shr_m mrs2) as [|m3|m3]; try lia; [reflexivity|].
  destruct (e2 <=? Float64.emax - Float64.prec); reflexivity.
Qed.

(** The exponent after the shift, and the size of the mantissa. *)
Lemma shr_fexp_exp (m : positive) (e : Z) (l : location) :
  emin Float64.prec Float64.emax <= e ->
  snd (shr_fexp Float64.prec Float64.emax (Zpos m) e l)
  = Z.max e (Zpos (digits2_pos m) + e - 53)
  /\ shr_m (fst (shr_fexp Float64.prec Float64.emax (Zpos m) e l)) < 2 ^ 53.
Proof.
  unfold shr_fexp, shr, fexp, emin, Float64.prec, Float64.emax. intros He.
  simpl Zdigits2.
  pose proof (digits2_pos_upper m) as Hu.
  destruct (Z.max (Zpos (digits2_pos m) + e - 53) (3 - 1024 - 53) - e) as [|k|k] eqn:Ek;
    simpl fst; simpl snd; rewrite ?shr_record_of_loc_m.
  - split; [lia|].
    assert (Hd : Zpos (digits2_pos m) <= 53) by lia.
    assert (Hp : 2 ^ Zpos (digits2_pos m) <= 2 ^ 53) by (apply Z.pow_le_mono_r; lia).
    lia.
  - split; [lia|].
    rewrite iter_shr_1_m by (rewrite shr_record_of_loc_m; lia).
    rewrite shr_record_of_loc_m.
    assert (Hk : Zpos (digits2_pos m) = 53 + Zpos k) by lia.
    apply Z.div_lt_upper_bound; [apply Z.pow_pos_nonneg; lia|].
    rewrite Z.mul_comm, <- Z.pow_add_r by lia. now rewrite <- Hk.
  - split; [lia|].
    assert (Hd : Zpos (digits2_pos m) <= 53) by lia.
    assert (Hp : 2 ^ Zpos (digits2_pos m) <= 2 ^ 53) by (apply Z.pow_le_mono_r; lia).
    lia.
Qed.

(** Rounding a positive mantissa gives a number of the sign asked for,
    not zero; it is finite unless the exponent passes the largest one. *)
Lemma binary_round_aux_shape (s : bool) (m : positive) (e : Z) (l : location) :
  emin Float64.prec Float64.emax <= e ->
  exists m' e',
    e <= e' <= Z.max e (Zpos (digits2_pos m) + e - 53) + 1
    /\ binary_round_aux Float64.prec Float64.emax s (Zpos m) e l
       = if e' <=? Float64.emax - Float64.prec
         then S754_finite s m' e' else S754_infinity s.
Proof.
  intros He. unfold binary_round_aux.
  destruct (shr_fexp_pos m e l He) as [Hm1 He1].
  destruct (shr_fexp_exp m e l He) as [Hx1 Hb1].
  destruct (shr_fexp Float64.prec Float64.emax (Zpos m) e l) as [mrs1 e1].
  simpl fst in Hm1, Hb1. simpl snd in He1, Hx1.
  pose proof (round_nearest_even_bounds (shr_m mrs1) (loc_of_shr_record mrs1)) as Hr.
  destruct (round_nearest_even (shr_m mrs1) (loc_of_shr_record mrs1)) as [|m2|m2];
    try lia.
  destruct (shr_fexp_pos m2 e1 loc_Exact He1) as [Hm2 _].
  destruct (shr_fexp_exp m2 e1 loc_Exact He1) as [Hx2 _].
  destruct (shr_fexp Float64.prec Float64.emax (Zpos m2) e1 loc_Exact) as [mrs2 e2].
  simpl fst in Hm2. simpl snd in Hx2.
  assert (Hd2 : Zpos (digits2_pos m2) <= 54).
  { apply digits2_pos_le; [lia|].
    change (2 ^ 54) with (2 * 2 ^ 53). lia. }
  destruct (shr_m mrs2) as [|m3|m3]; try lia.
  exists m3, e2. split; [lia|reflexivity].
Qed.

Lemma iter_xO_value (p d : positive) :
  Zpos (Pos.iter xO p d) = Zpos p * 2 ^ Zpos d.
Proof.
  induction d as [|d IH] using Pos.peano_ind.
  - simpl. lia.
  - rewrite Pos.iter_succ, Pos2Z.inj_xO, IH, Pos2Z.inj_succ, Z.pow_succ_r by lia. lia.
Qed.

(** The conversion of an integer other than 0: a number of its sign, with
    an exponent of at least -52, finite when the integer is an [int64]. *)
Lemma of_int64_shape (z : Z) :
  z <> 0 ->
  exists m e,
    - 52 <= e
    /\ (Int64.in_range z -> e <= 12)
    /\ Float64.of_int64 z
       = if e <=? Float64.emax - Float64.prec
         then S754_finite (z <? 0) m e else S754_infinity (z <? 0).
Proof.
  intros Hz.
  assert (H : forall (s : bool) (p : positive),
            exists m e,
              - 52 <= e
              /\ (Zpos p <= 2 ^ 63 -> e <= 12)
              /\ binary_round Float64.prec Float64.emax s p 0
                 = if e <=? Float64.emax - Float64.prec
                   then S754_finite s m e else S754_infinity s).
  { intros s p. unfold binary_round, shl_align, fexp, emin, Float64.prec, Float64.emax.
    pose proof (digits2_pos_upper p) as Hu.
    assert (Hd1 : 1 <= Zpos (digits2_pos p)) by lia.
    destruct (Z.max (Zpos (digits2_pos p) + 0 - 53) (3 - 1024 - 53) - 0) as [|k|k] eqn:Ek.
    - destruct (binary_round_aux_shape s p 0 loc_Exact) as (m & e & Hb & Hr).
      { unfold emin, Float64.prec, Float64.emax. lia. }
      exists m, e. split; [lia|]. split; [lia|exact Hr].
    - destruct (binary_round_aux_shape s p 0 loc_Exact) as (m & e & Hb & Hr).
      { unfold emin, Float64.prec, Float64.emax. lia. }
      exists m, e. split; [lia|]. split; [|exact Hr].
      intros Hp. assert (Hd : Zpos (digits2_pos p) <= 64).
      { apply digits2_pos_le; [lia|]. change (2 ^ 64) with (2 * 2 ^ 63). lia. }
      lia.
    - assert (Hk : Zpos (digits2_pos p) + Zpos k = 53) by lia.
      replace (Z.max (Zpos (digits2_pos p) + 0 - 53) (3 - 1024 - 53)) with (Zneg k) by lia.
      destruct (binary_round_aux_shape s (Pos.iter xO p k) (Zneg k) loc_Exact)
        as (m & e & Hb & Hr).
      { unfold emin, Float64.prec, Float64.emax. lia. }
      assert (Hd : Zpos (digits2_pos (Pos.iter xO p k)) <= 53).
      { apply digits2_pos_le; [lia|]. rewrite iter_xO_value, <- Hk.
        rewrite Z.pow_add_r by lia.
        apply Z.mul_lt_mono_pos_r; [apply Z.pow_pos_nonneg; lia | exact Hu]. }
      exists m, e. split; [lia|]. split; [lia|exact Hr]. }
  destruct z as [|p|p]; [congruence| |].
  - destruct (H false p) as (m & e & H1 & H2 & H3).
    exists m, e. split; [exact H1|]. split; [|exact H3].
    intros Hr. apply H2. rewrite in_range_bounds in Hr. lia.
  - destruct (H true p) as (m & e & H1 & H2 & H3).
    exists m, e. split; [exact H1|]. split; [|exact H3].
    intros Hr. apply H2. rewrite in_range_bounds in Hr. lia.
Qed.

Lemma mul_c100_nonzero (z : Z) :
  z <> 0 -> nonzero_number (Float64.mul Float64.c100 (Float64.of_int64 z)).
Proof.
  intros Hz. destruct (of_int64_shape z Hz) as (m & e & He & _ & Hr).
  rewrite Hr. destruct (e <=? Float64.emax - Float64.prec).
  - change (Float64.mul Float64.c100 (S754_finite (z <? 0) m e))
      with (binary_round_aux Float64.prec Float64.emax (xorb false (z <? 0))
              (Zpos (7036874417766400 * m)) (-46 + e) loc_Exact).
    destruct (binary_round_aux_shape (xorb false (z <? 0)) (7036874417766400 * m)
                (-46 + e) loc_Exact) as (m' & e' & _ & Hr').
    { unfold emin, Float64.prec, Float64.emax. lia. }
    rewrite Hr'. destruct (e' <=? Float64.emax - Float64.prec); exact I.
  - exact I.
Qed.

Lemma SFdiv_core_nonneg (mx my : positive) (ex ey : Z) :
  0 <= fst (fst (SFdiv_core_binary Float64.prec Float64.emax (Zpos mx) ex (Zpos my) ey)).
Proof.
  unfold SFdiv_core_binary.
  set (s := ex - ey - _).
  set (m' := match s with Z0 => Zpos mx | Zpos _ => Z.shiftl (Zpos mx) s | Zneg _ => 0 end).
  assert (Hm : 0 <= m').
  { unfold m'. destruct s; try lia. apply Z.shiftl_nonneg. lia. }
  pose proof (Z_div_mod m' (Zpos my) ltac:(lia)) as Hdiv.
  destruct (Z.div_eucl m' (Zpos my)) as [q r]. simpl. nia.
Qed.

Lemma div_not_nan (x : Float64.t) (m : positive) (e : Z) (s : bool) :
  Float64.is_nan x = false ->
  Float64.is_nan (Float64.div x (S754_finite s m e)) = false.
Proof.
  intros Hx. destruct x as [sx|sx| |sx mx ex]; try discriminate; try reflexivity.
  unfold Float64.div, SFdiv.
  pose proof (SFdiv_core_nonneg mx m ex e) as Hq.
  destruct (SFdiv_core_binary Float64.prec Float64.emax (Zpos mx) ex (Zpos m) e)
    as [[mz ez] lz].
  simpl in Hq. now apply binary_round_aux_not_nan.
Qed.

(** X13. For counts that are [int64] values, 100 * covered / total is NaN
    exactly when covered and total are both 0; so a row or a total is
    printed in the default colour exactly in this case. *)
Theorem percent_nan_iff (covered total : Z) :
  Int64.in_range total ->
  (Float64.is_nan (percent_of covered total) = true <-> covered = 0 /\ total = 0)
  /\ (getColor (percent_of covered total) = Default <-> covered = 0 /\ total = 0).
Proof.
  intros Ht.
  assert (H : Float64.is_nan (percent_of covered total) = true
              <-> covered = 0 /\ total = 0).
  { unfold percent_of.
    destruct (Z.eq_dec total 0) as [->|Hnt].
    - destruct (Z.eq_dec covered 0) as [->|Hnc].
      + split; [now split | reflexivity].
      + pose proof (mul_c100_nonzero covered Hnc) as Hx.
        change (Float64.of_int64 0) with (S754_zero false).
        destruct (Float64.mul Float64.c100 (Float64.of_int64 covered));
          try contradiction; simpl; split; try discriminate; intros [? _]; congruence.
    - destruct (of_int64_shape total Hnt) as (m & e & _ & He & Hr).
      specialize (He Ht). rewrite Hr.
      replace (e <=? Float64.emax - Float64.prec) with true
        by (symmetry; apply Z.leb_le; unfold Float64.emax, Float64.prec; lia).
      rewrite div_not_nan.
      + split; [discriminate | intros [_ ?]; congruence].
      + destruct (Z.eq_dec covered 0) as [->|Hnc]; [reflexivity|].
        pose proof (mul_c100_nonzero covered Hnc) as Hx.
        destruct (Float64.mul Float64.c100 (Float64.of_int64 covered));
          try contradiction; reflexivity. }
  split; [exact H|]. now rewrite getColor_default_nan.
Qed.

Lemma percent_nan_iff_witness :
  Int64.in_range 0
  /\ (Float64.is_nan (percent_of 3 0) = true <-> 3 = 0 /\ 0 = 0)
  /\ percent_of 3 0 = S754_infinity false.
Proof.
  split; [exact zero_in_range|].
  split; [exact (proj1 (percent_nan_iff 3 0 zero_in_range)) | reflexivity].
Defined.

(** ** Colours and order *)

(** X14. The colour never gets worse when the percentage grows: for
    p <= q the colour of p is at most that of q in the order red, yellow,
    green. *)
Theorem getColor_monotone (p q : Float64.t) :
  Float64.leb p q = true ->
  color_rank (getColor p) <= color_rank (getColor q).
Proof.
  intros Hpq.
  pose proof (proj1 (leb_key p q) Hpq) as (Hp & Hq & _).
  unfold getColor.
  destruct (Float64.leb q Float64.c30) eqn:Q30.
  - rewrite (leb_trans p q Float64.c30 Hpq Q30). simpl. lia.
  - assert (GQ : Float64.gtb q Float64.c30 = true)
      by (apply (leb_total q Float64.c30); [exact Hq | reflexivity | exact Q30]).
    rewrite GQ. cbn [andb].
    destruct (Float64.leb p Float64.c30) eqn:P30.
    + destruct (Float64.leb q Float64.c70); [simpl; lia|].
      destruct (Float64.gtb q Float64.c70); simpl; lia.
    + assert (GP : Float64.gtb p Float64.c30 = true)
        by (apply (leb_total p Float64.c30); [exact Hp | reflexivity | exact P30]).
      rewrite GP. cbn [andb].
      destruct (Float64.leb q Float64.c70) eqn:Q70.
      * rewrite (leb_trans p q Float64.c70 Hpq Q70). simpl. lia.
      * assert (GQ7 : Float64.gtb q Float64.c70 = true)
          by (apply (leb_total q Float64.c70); [exact Hq | reflexivity | exact Q70]).
        rewrite GQ7.
        destruct (Float64.leb p Float64.c70) eqn:P70; [simpl; lia|].
        assert (GP7 : Float64.gtb p Float64.c70 = true)
          by (apply (leb_total p Float64.c70); [exact Hp | reflexivity | exact P70]).
        rewrite GP7. simpl. lia.
Qed.

Lemma getColor_monotone_witness :
  Float64.leb (percent_of 3 10) (percent_of 7 10) = true
  /\ color_rank (getColor (percent_of 3 10)) <= color_rank (getColor (percent_of 7 10)).
Proof.
  assert (H : Float64.leb (percent_of 3 10) (percent_of 7 10) = true)
    by (vm_compute; reflexivity).
  split; [exact H|]. exact (getColor_monotone _ _ H).
Defined.

(** ** The order of the profiles *)

Lemma Zsum_perm (l l' : list Z) : Permutation l l' -> Zsum l = Zsum l'.
Proof. induction 1; simpl; lia. Qed.

Section OrderFacts.
Variable ParseFile : string -> Result Node.
Variable path_Dir : string -> string.
Variable path_Base : string -> string.
Variable filepath_Join : string -> string -> string.
Variable filepath_IsAbs : string -> bool.

Local Abbreviation file_result :=
  (file_result ParseFile path_Dir path_Base filepath_Join filepath_IsAbs).
Local Abbreviation profile_loop :=
  (profile_loop ParseFile path_Dir path_Base filepath_Join filepath_IsAbs).

Lemma profile_loop_all_ok dirs profiles total covered coverfiles :
  Int64.in_range total -> Int64.in_range covered ->
  Forall (fun p => is_Ok (file_result dirs p) = true) profiles ->
  profile_loop dirs profiles total covered coverfiles
  = Ok (fold_left Int64.add
          (map (fun p => (from_Ok (""%string, (0, 0)) (file_result dirs p)).2.2) profiles)
          total,
        fold_left Int64.add
          (map (fun p => (from_Ok (""%string, (0, 0)) (file_result dirs p)).2.1) profiles)
          covered,
        coverfiles
        ++ map (fun p => row_of (from_Ok (""%string, (0, 0)) (file_result dirs p)))
               profiles).
Proof.
  intros Ht Hc Hall. revert total covered coverfiles Ht Hc.
  induction Hall as [|p profiles Hp _ IH]; intros total covered coverfiles Ht Hc.
  - simpl. now rewrite app_nil_r.
  - destruct (file_result dirs p) as [r|e] eqn:E; [|discriminate].
    rewrite (profile_loop_step ParseFile path_Dir path_Base filepath_Join
               filepath_IsAbs dirs p profiles total covered coverfiles r Ht Hc E).
    rewrite IH by apply add64_in_range.
    simpl. rewrite E. simpl. now rewrite <- app_assoc.
Qed.

Lemma profile_loop_ok_all dirs profiles total covered coverfiles res :
  Int64.in_range total -> Int64.in_range covered ->
  profile_loop dirs profiles total covered coverfiles = Ok res ->
  Forall (fun p => is_Ok (file_result dirs p) = true) profiles.
Proof.
  revert total covered coverfiles.
  induction profiles as [|p profiles IH]; intros total covered coverfiles Ht Hc H.
  - constructor.
  - destruct (file_result dirs p) as [r|e] eqn:E.
    + rewrite (profile_loop_step ParseFile path_Dir path_Base filepath_Join
                 filepath_IsAbs dirs p profiles total covered coverfiles r Ht Hc E) in H.
      constructor; [now rewrite E|].
      eapply IH; [| |exact H]; apply add64_in_range.
    + rewrite (profile_loop_step_error ParseFile path_Dir path_Base filepath_Join
                 filepath_IsAbs dirs p profiles total covered coverfiles e E) in H.
      discriminate.
Qed.

(** X15. With the packages resolved, the loop of [run] over the profiles
    does not depend on their order: on a permutation of the profiles it
    succeeds as well, with the same total and covered counts and the same
    rows up to their order. *)
Theorem totals_do_not_depend_on_profile_order
    (dirs : gmap string (option Pkg)) (profiles profiles' : list Profile)
    (total covered : Z) (coverfiles : list coveredFile) :
  Permutation profiles profiles' ->
  profile_loop dirs profiles 0 0 [] = Ok (total, covered, coverfiles) ->
  exists coverfiles',
    profile_loop dirs profiles' 0 0 [] = Ok (total, covered, coverfiles')
    /\ Permutation coverfiles coverfiles'.
Proof.
  intros Hperm H.
  pose proof (profile_loop_ok_all dirs profiles 0 0 [] _ zero_in_range zero_in_range H)
    as Hall.
  assert (Hall' : Forall (fun p => is_Ok (file_result dirs p) = true) profiles').
  { eapply Permutation_Forall; [exact Hperm | exact Hall]. }
  rewrite (profile_loop_all_ok dirs profiles 0 0 [] zero_in_range zero_in_range Hall) in H.
  injection H as <- <- <-.
  rewrite (profile_loop_all_ok dirs profiles' 0 0 [] zero_in_range zero_in_range Hall').
  eexists. split.
  - f_equal. f_equal. f_equal.
    + rewrite !fold_left_add64 by apply zero_in_range. f_equal. f_equal.
      symmetry. apply Zsum_perm, Permutation_map, Hperm.
    + rewrite !fold_left_add64 by apply zero_in_range. f_equal. f_equal.
      symmetry. apply Zsum_perm, Permutation_map, Hperm.
  - simpl. apply Permutation_map, Hperm.
Qed.

End OrderFacts.

Lemma totals_do_not_depend_on_profile_order_witness :
  Permutation sample_profiles (rev sample_profiles)
  /\ profile_loop sample_ParseFile (fun s => s) (fun s => s) (fun d f => f)
       (fun _ => false) ∅ sample_profiles 0 0 []
     = Ok (11, 7, [row_a; row_b; row_c])
  /\ exists coverfiles',
       profile_loop sample_ParseFile (fun s => s) (fun s => s) (fun d f => f)
         (fun _ => false) ∅ (rev sample_profiles) 0 0 []
       = Ok (11, 7, coverfiles')
       /\ Permutation [row_a; row_b; row_c] coverfiles'.
Proof.
  assert (Hp : Permutation sample_profiles (rev sample_profiles))
    by apply Permutation_rev.
  assert (H : profile_loop sample_ParseFile (fun s => s) (fun s => s) (fun d f => f)
                (fun _ => false) ∅ sample_profiles 0 0 []
              = Ok (11, 7, [row_a; row_b; row_c])) by (vm_compute; reflexivity).
  split; [exact Hp|]. split; [exact H|].
  exact (totals_do_not_depend_on_profile_order sample_ParseFile (fun s => s)
           (fun s => s) (fun d f => f) (fun _ => false) ∅ sample_profiles
           (rev sample_profiles) 11 7 [row_a; row_b; row_c] Hp H).
Defined.
